(** * Coordination prototypes: file locks, heartbeats and task delegation

    A shallow embedding of the three coordination classes of the repository
    ([FileLockCoordinator], [HeartbeatMonitor], [TaskDelegationSystem]) and
    of the SQLite tables they share, followed by the properties of the
    specification that can be stated over it.

    Modelling conventions.
    - A table is the list of its rows in scan (rowid) order.  [DELETE] is a
      [filter], [UPDATE] a [map], and both report the number of rows they
      touched, as [cursor.rowcount] does.  An [INSERT] into a table with a
      primary key raises [sqlite3.IntegrityError] when the key is present.
    - [time.time()] is an oracle: the world carries the sequence of readings
      the process will obtain and the index of the next one.  Timestamps are
      integers (seconds); the rounding of floating point is not modelled.
    - What a connection writes and does not [commit] before [close] is
      discarded.
    - A Python exception is the result [None] of a computation in [M]. *)

From Stdlib Require Import ZArith List String Ascii Bool Lia Permutation.
From Stdlib Require Import Sorting.Sorted.
Import ListNotations.
Local Open Scope string_scope.
Local Open Scope Z_scope.

Set Implicit Arguments.

(** ** Python strings and lists *)

Module Py.

(** [sep.join(l)] *)
Fixpoint join (sep : string) (l : list string) : string :=
  match l with
  | [] => ""
  | [x] => x
  | x :: rest => x ++ sep ++ join sep rest
  end.

(** [s.split(sep)] for a separator of one character: one piece more than
    there are separators in [s]; [''.split(',')] is [['']]. *)
Fixpoint split (sep : ascii) (s : string) : list string :=
  match s with
  | EmptyString => [""]
  | String c s' =>
      if Ascii.eqb c sep then "" :: split sep s'
      else match split sep s' with
           | piece :: pieces => String c piece :: pieces
           | [] => [String c ""]
           end
  end.

(** Truth value of a string: [if s:] *)
Definition truthy (s : string) : bool :=
  match s with EmptyString => false | _ => true end.

(** Truth value of an optional list: [if l:] with [l] either [None] or a
    list. *)
Definition truthy_list (A : Type) (l : option (list A)) : bool :=
  match l with
  | None | Some [] => false
  | Some (_ :: _) => true
  end.

(** [x in l] for a list of strings *)
Definition contains (l : list string) (x : string) : bool :=
  existsb (String.eqb x) l.

(** [all(cap in have for cap in wanted)] *)
Definition all_in (wanted have : list string) : bool :=
  forallb (contains have) wanted.

(** Number of occurrences of a character. *)
Fixpoint count (sep : ascii) (s : string) : nat :=
  match s with
  | EmptyString => O
  | String c s' => if Ascii.eqb c sep then S (count sep s') else count sep s'
  end.

End Py.

Definition comma : ascii := ","%char.

(** A string without comma. *)
Definition comma_free (s : string) : Prop := Py.count comma s = O.

(** ** The shared store *)

(** Row of [file_locks] ([file_path] is the primary key). *)
Record FileLock := mkFileLock {
  fl_file_path : string;
  fl_agent_id : string;
  fl_operation : string;
  fl_lock_time : Z;
  fl_expires_at : Z
}.

(** Row of [active_agents] ([agent_id] is the primary key).  The code only
    ever writes text into [capabilities] and [status] and an integer into
    [workload], so the columns are not optional here. *)
Record Agent := mkAgent {
  ag_agent_id : string;
  ag_capabilities : string;
  ag_status : string;
  ag_last_heartbeat : Z;
  ag_registered_at : Z;
  ag_workload : Z
}.

(** Row of [delegated_tasks] ([task_id] is the primary key). *)
Record Task := mkTask {
  tk_task_id : string;
  tk_task_type : string;
  tk_description : string;
  tk_required_capabilities : string;
  tk_priority : Z;
  tk_status : string;
  tk_parent_agent_id : option string;
  tk_assigned_agent_id : option string;
  tk_created_at : Z;
  tk_claimed_at : option Z;
  tk_completed_at : option Z;
  tk_result : option string;
  tk_success : Z
}.

Record World := mkWorld {
  clock : nat -> Z;          (* the readings [time.time()] will return *)
  tick : nat;                (* index of the next reading *)
  file_locks : list FileLock;
  active_agents : list Agent;
  delegated_tasks : list Task
}.

Definition set_tick (n : nat) (w : World) : World :=
  mkWorld (clock w) n (file_locks w) (active_agents w) (delegated_tasks w).

Definition set_file_locks (l : list FileLock) (w : World) : World :=
  mkWorld (clock w) (tick w) l (active_agents w) (delegated_tasks w).

Definition set_active_agents (l : list Agent) (w : World) : World :=
  mkWorld (clock w) (tick w) (file_locks w) l (delegated_tasks w).

Definition set_delegated_tasks (l : list Task) (w : World) : World :=
  mkWorld (clock w) (tick w) (file_locks w) (active_agents w) l.

(** A database in which the three tables have just been created. *)
Definition fresh_world (clk : nat -> Z) : World := mkWorld clk 0 [] [] [].

(** ** Computations over the store *)

Definition M (A : Type) : Type := World -> option (A * World).

Definition ret (A : Type) (a : A) : M A := fun w => Some (a, w).

Definition bind (A B : Type) (m : M A) (k : A -> M B) : M B :=
  fun w => match m w with
           | Some (a, w') => k a w'
           | None => None
           end.

(** [raise sqlite3.IntegrityError(...)], the only exception modelled. *)
Definition raise (A : Type) : M A := fun _ => None.

Declare Scope store_scope.
Delimit Scope store_scope with store.
Notation "x <- m ;; k" := (bind m (fun x => k))
  (at level 61, m at next level, right associativity) : store_scope.
Notation "m ;;; k" := (bind m (fun _ => k))
  (at level 61, right associativity) : store_scope.
Local Open Scope store_scope.

(** [time.time()] *)
Definition time_time : M Z :=
  fun w => Some (clock w (tick w), set_tick (S (tick w)) w).

(** [time.sleep(d)]: its only effect is on what the clock reads next, which
    the oracle already fixes. *)
Definition time_sleep : M unit := ret tt.

Fixpoint mapM (A B : Type) (f : A -> M B) (rows : list A) : M (list B) :=
  match rows with
  | [] => ret []
  | row :: rest => y <- f row ;; ys <- mapM f rest ;; ret (y :: ys)
  end.

(** Rows deleted or updated by a statement with [WHERE p]. *)
Definition rowcount (A : Type) (p : A -> bool) (rows : list A) : Z :=
  Z.of_nat (List.length (filter p rows)).

Definition delete_where (A : Type) (p : A -> bool) (rows : list A) : list A :=
  filter (fun r => negb (p r)) rows.

Definition update_where (A : Type) (p : A -> bool) (f : A -> A)
    (rows : list A) : list A :=
  map (fun r => if p r then f r else r) rows.

(** [cursor.fetchone()] *)
Definition fetchone (A : Type) (rows : list A) : option A := hd_error rows.

(** The clock never runs backwards. *)
Definition monotone (clk : nat -> Z) : Prop :=
  forall i j, (i <= j)%nat -> clk i <= clk j.

(** ** FileLockCoordinator (file_locking.py) *)

Module FileLockCoordinator.

(** [lock_expiration = 300  # 5 minutes in seconds] *)
Definition lock_expiration : Z := 300.

(** [DELETE FROM file_locks WHERE expires_at < ?] *)
Definition expired (now : Z) (r : FileLock) : bool := fl_expires_at r <? now.

Definition sweep_expired (now : Z) (rows : list FileLock) : list FileLock :=
  delete_where (expired now) rows.

(** [... WHERE file_path = ?] *)
Definition on_path (file_path : string) (r : FileLock) : bool :=
  String.eqb (fl_file_path r) file_path.

(** [INSERT INTO file_locks ...]: [file_path] is the primary key. *)
Definition insert_lock (row : FileLock) : M unit :=
  fun w =>
    if existsb (on_path (fl_file_path row)) (file_locks w) then raise unit w
    else Some (tt, set_file_locks (file_locks w ++ [row]) w).

(** One pass through the body of the polling loop of [acquire_lock], the
    block guarded by [with self.lock:].  The result is [true] when the
    function returns [True] from inside the block.  When a lock exists the
    connection is closed without [commit], which discards the deletion of
    the expired rows made through it. *)
Definition acquire_poll (agent_id file_path operation : string) : M bool :=
  t <- time_time ;;
  committed <- (fun w => Some (file_locks w, w)) ;;
  (fun w => Some (tt, set_file_locks (sweep_expired t (file_locks w)) w)) ;;;
  existing_lock <-
    (fun w => Some (fetchone (filter (on_path file_path) (file_locks w)), w)) ;;
  match existing_lock with
  | None =>
      now <- time_time ;;
      let expires_at := now + lock_expiration in
      insert_lock (mkFileLock file_path agent_id operation now expires_at) ;;;
      ret true
  | Some _ =>
      (fun w => Some (tt, set_file_locks committed w)) ;;;
      ret false
  end.

(** The loop [while time.time() - start_time < timeout_seconds:], unrolled
    at most [fuel] times.  [Some b] is the value returned by
    [acquire_lock]; [None] means the loop is still polling after [fuel]
    iterations. *)
Fixpoint acquire_loop (fuel : nat) (start_time : Z)
    (agent_id file_path operation : string) (timeout_seconds : Z)
    : M (option bool) :=
  match fuel with
  | O => ret None
  | S fuel' =>
      t <- time_time ;;
      if t - start_time <? timeout_seconds then
        acquired <- acquire_poll agent_id file_path operation ;;
        if acquired : bool then ret (Some true)
        else
          time_sleep ;;;
          acquire_loop fuel' start_time agent_id file_path operation
                       timeout_seconds
      else ret (Some false)
  end.

Definition acquire_lock (fuel : nat) (agent_id file_path operation : string)
    (timeout_seconds : Z) : M (option bool) :=
  start_time <- time_time ;;
  acquire_loop fuel start_time agent_id file_path operation timeout_seconds.

(** [DELETE FROM file_locks WHERE file_path = ? AND agent_id = ?] *)
Definition held_by (file_path agent_id : string) (r : FileLock) : bool :=
  String.eqb (fl_file_path r) file_path && String.eqb (fl_agent_id r) agent_id.

Definition release_lock (agent_id file_path : string) : M bool :=
  fun w =>
    let rows_deleted := rowcount (held_by file_path agent_id) (file_locks w) in
    Some (0 <? rows_deleted,
          set_file_locks
            (delete_where (held_by file_path agent_id) (file_locks w)) w).

(** An entry of the list returned by [get_all_locks]. *)
Record LockInfo := mkLockInfo {
  li_file_path : string;
  li_agent_id : string;
  li_operation : string;
  li_lock_time : Z;
  li_expires_at : Z;
  li_age_seconds : Z
}.

Definition get_all_locks : M (list LockInfo) :=
  t <- time_time ;;
  (fun w => Some (tt, set_file_locks (sweep_expired t (file_locks w)) w)) ;;;
  rows <- (fun w => Some (file_locks w, w)) ;;
  mapM (fun row =>
          now <- time_time ;;
          ret (mkLockInfo (fl_file_path row) (fl_agent_id row)
                          (fl_operation row) (fl_lock_time row)
                          (fl_expires_at row) (now - fl_lock_time row)))
       rows.

(** What the processes sharing the store can do to it, one atomic action
    at a time: read the clock (the guard of a polling loop), run one
    polling pass of some [acquire_lock] call, run a whole [acquire_lock]
    call without interruption, release, or list. *)
Inductive step : World -> World -> Prop :=
| step_clock w t w' :
    time_time w = Some (t, w') -> step w w'
| step_poll agent_id file_path operation w b w' :
    acquire_poll agent_id file_path operation w = Some (b, w') -> step w w'
| step_acquire fuel agent_id file_path operation timeout_seconds w r w' :
    acquire_lock fuel agent_id file_path operation timeout_seconds w
    = Some (r, w') -> step w w'
| step_release agent_id file_path w b w' :
    release_lock agent_id file_path w = Some (b, w') -> step w w'
| step_list w l w' :
    get_all_locks w = Some (l, w') -> step w w'.

Inductive steps : World -> World -> Prop :=
| steps_refl w : steps w w
| steps_cons w1 w2 w3 : step w1 w2 -> steps w2 w3 -> steps w1 w3.

(** Rows of the table for one resource, and those of them still live at
    time [now]. *)
Definition rows_for (file_path : string) (rows : list FileLock)
    : list FileLock :=
  filter (on_path file_path) rows.

Definition live_rows_for (now : Z) (file_path : string)
    (rows : list FileLock) : list FileLock :=
  filter (fun r => negb (expired now r)) (rows_for file_path rows).

(** The primary key of [file_locks]: no two rows for one [file_path]. *)
Definition unique_paths (rows : list FileLock) : Prop :=
  NoDup (map fl_file_path rows).

End FileLockCoordinator.

(** ** HeartbeatMonitor (heartbeat_monitor.py) *)

Module HeartbeatMonitor.

(** [... WHERE agent_id = ?] *)
Definition has_id (agent_id : string) (a : Agent) : bool :=
  String.eqb (ag_agent_id a) agent_id.

(** [caps_str.split(",") if caps_str else []] *)
Definition parse_capabilities (caps_str : string) : list string :=
  if Py.truthy caps_str then Py.split comma caps_str else [].

(** [INSERT OR REPLACE INTO active_agents ...]: a row with the same
    primary key is deleted before the new row is added. *)
Definition insert_or_replace (row : Agent) (rows : list Agent) : list Agent :=
  delete_where (has_id (ag_agent_id row)) rows ++ [row].

Definition register_agent (agent_id : string) (capabilities : list string)
    (status : string) : M bool :=
  now <- time_time ;;
  let capabilities_str := Py.join "," capabilities in
  (fun w => Some (tt, set_active_agents
                        (insert_or_replace
                           (mkAgent agent_id capabilities_str status now now 0)
                           (active_agents w)) w)) ;;;
  ret true.

Definition send_heartbeat (agent_id : string) (status : option string)
    : M bool :=
  let given := match status with Some s => Py.truthy s | None => false end in
  now <- time_time ;;
  let touch (a : Agent) : Agent :=
    match status with
    | Some s =>
        if given
        then (* SET last_heartbeat = ?, status = ? *)
          mkAgent (ag_agent_id a) (ag_capabilities a) s now
                  (ag_registered_at a) (ag_workload a)
        else (* SET last_heartbeat = ? *)
          mkAgent (ag_agent_id a) (ag_capabilities a) (ag_status a) now
                  (ag_registered_at a) (ag_workload a)
    | None =>
        mkAgent (ag_agent_id a) (ag_capabilities a) (ag_status a) now
                (ag_registered_at a) (ag_workload a)
    end in
  fun w =>
    let rows_updated := rowcount (has_id agent_id) (active_agents w) in
    Some (0 <? rows_updated,
          set_active_agents
            (update_where (has_id agent_id) touch (active_agents w)) w).

(** An entry of the list returned by [get_active_agents]. *)
Record AgentInfo := mkAgentInfo {
  ai_agent_id : string;
  ai_capabilities : list string;
  ai_status : string;
  ai_last_heartbeat : Z;
  ai_registered_at : Z;
  ai_workload : Z;
  ai_age_seconds : Z
}.

(** [... WHERE last_heartbeat > ?] *)
Definition recent (cutoff_time : Z) (a : Agent) : bool :=
  cutoff_time <? ag_last_heartbeat a.

(** The [for row in cursor.fetchall():] loop of [get_active_agents]. *)
Fixpoint collect_agents (capability_filter : option (list string))
    (rows : list Agent) : M (list AgentInfo) :=
  match rows with
  | [] => ret []
  | row :: rest =>
      let capabilities := parse_capabilities (ag_capabilities row) in
      let skip :=
        match capability_filter with
        | Some wanted =>
            Py.truthy_list capability_filter
            && negb (Py.all_in wanted capabilities)
        | None => false
        end in
      if skip then collect_agents capability_filter rest
      else
        now <- time_time ;;
        agents <- collect_agents capability_filter rest ;;
        ret (mkAgentInfo (ag_agent_id row) capabilities (ag_status row)
                         (ag_last_heartbeat row) (ag_registered_at row)
                         (ag_workload row) (now - ag_last_heartbeat row)
             :: agents)
  end.

Definition get_active_agents (timeout_seconds : Z)
    (capability_filter : option (list string)) : M (list AgentInfo) :=
  t <- time_time ;;
  let cutoff_time := t - timeout_seconds in
  rows <- (fun w => Some (filter (recent cutoff_time) (active_agents w), w)) ;;
  collect_agents capability_filter rows.

(** [DELETE FROM active_agents WHERE last_heartbeat < ?] *)
Definition stale (cutoff_time : Z) (a : Agent) : bool :=
  ag_last_heartbeat a <? cutoff_time.

Definition cleanup_stale_agents (timeout_seconds : Z) : M Z :=
  t <- time_time ;;
  let cutoff_time := t - timeout_seconds in
  fun w =>
    let removed_count := rowcount (stale cutoff_time) (active_agents w) in
    Some (removed_count,
          set_active_agents
            (delete_where (stale cutoff_time) (active_agents w)) w).

Definition unregister_agent (agent_id : string) : M bool :=
  fun w =>
    let rows_deleted := rowcount (has_id agent_id) (active_agents w) in
    Some (0 <? rows_deleted,
          set_active_agents
            (delete_where (has_id agent_id) (active_agents w)) w).

(** The dictionary returned by [get_agent_status]. *)
Record AgentStatus := mkAgentStatus {
  as_agent_id : string;
  as_capabilities : list string;
  as_status : string;
  as_last_heartbeat : Z;
  as_registered_at : Z;
  as_workload : Z;
  as_time_since_heartbeat : Z;
  as_is_alive : bool
}.

Definition get_agent_status (timeout_seconds : Z) (agent_id : string)
    : M (option AgentStatus) :=
  row <- (fun w => Some (fetchone (filter (has_id agent_id) (active_agents w)),
                         w)) ;;
  match row with
  | Some a =>
      let capabilities := parse_capabilities (ag_capabilities a) in
      now <- time_time ;;
      let time_since_heartbeat := now - ag_last_heartbeat a in
      let is_alive := time_since_heartbeat <? timeout_seconds in
      ret (Some (mkAgentStatus (ag_agent_id a) capabilities (ag_status a)
                               (ag_last_heartbeat a) (ag_registered_at a)
                               (ag_workload a) time_since_heartbeat is_alive))
  | None => ret None
  end.

(** The liveness test of the specification: an agent is live at [now]
    when [now - last_heartbeat < liveness_timeout]. *)
Definition is_live (timeout_seconds now : Z) (a : Agent) : bool :=
  now - ag_last_heartbeat a <? timeout_seconds.

(** A tag that survives the trip through the [capabilities] column. *)
Definition clean_tag (tag : string) : Prop := tag <> "" /\ comma_free tag.

Definition has_comma (tag : string) : Prop := (0 < Py.count comma tag)%nat.

(** What an entry of [get_active_agents] copies from its row. *)
Definition describes (row : Agent) (info : AgentInfo) : Prop :=
  ai_agent_id info = ag_agent_id row /\
  ai_capabilities info = parse_capabilities (ag_capabilities row) /\
  ai_status info = ag_status row /\
  ai_last_heartbeat info = ag_last_heartbeat row /\
  ai_registered_at info = ag_registered_at row /\
  ai_workload info = ag_workload row.

(** The rows that the capability filter lets through. *)
Definition passes (capability_filter : option (list string)) (row : Agent)
    : bool :=
  match capability_filter with
  | Some wanted =>
      negb (Py.truthy_list capability_filter)
      || Py.all_in wanted (parse_capabilities (ag_capabilities row))
  | None => true
  end.

End HeartbeatMonitor.

(** ** TaskDelegationSystem (task_delegation.py) *)

Module TaskDelegationSystem.

Definition agent_is (agent_id : string) (a : Agent) : bool :=
  String.eqb (ag_agent_id a) agent_id.

Definition task_is (task_id : string) (t : Task) : bool :=
  String.eqb (tk_task_id t) task_id.

(** [ORDER BY workload ASC], as a stable insertion sort: rows of equal
    workload stay in scan order. *)
Fixpoint insert_by_workload (a : Agent) (rows : list Agent) : list Agent :=
  match rows with
  | [] => [a]
  | b :: rest =>
      if ag_workload a <=? ag_workload b then a :: b :: rest
      else b :: insert_by_workload a rest
  end.

Definition order_by_workload (rows : list Agent) : list Agent :=
  fold_right insert_by_workload [] rows.

(** [agent_caps = caps_str.split(",") if caps_str else []] *)
Definition agent_caps (caps_str : string) : list string :=
  if Py.truthy caps_str then Py.split comma caps_str else [].

(** The rows selected by the query of [delegate_task]:
    [WHERE last_heartbeat > ? ORDER BY workload ASC] with the cutoff
    [now - 60]. *)
Definition select_agents (now : Z) (rows : list Agent) : list Agent :=
  let cutoff_time := now - 60 in
  order_by_workload (filter (fun a => cutoff_time <? ag_last_heartbeat a) rows).

(** The list [capable_agents] built by the filtering loop. *)
Definition capable_agents (required : list string) (agents : list Agent)
    : list (string * Z) :=
  map (fun a => (ag_agent_id a, ag_workload a))
      (filter (fun a => Py.all_in required (agent_caps (ag_capabilities a)))
              agents).

(** [UPDATE active_agents SET workload = workload + 1 WHERE agent_id = ?] *)
Definition bump_workload (delta : Z) (a : Agent) : Agent :=
  mkAgent (ag_agent_id a) (ag_capabilities a) (ag_status a)
          (ag_last_heartbeat a) (ag_registered_at a) (ag_workload a + delta).

(** [INSERT INTO delegated_tasks ...]: [task_id] is the primary key. *)
Definition insert_task (row : Task) : M unit :=
  fun w =>
    if existsb (task_is (tk_task_id row)) (delegated_tasks w) then raise unit w
    else Some (tt, set_delegated_tasks (delegated_tasks w ++ [row]) w).

(** The dictionary returned by [delegate_task]. *)
Record Delegation := mkDelegation {
  dg_task_id : string;
  dg_assigned_agent : option string;
  dg_status : string;
  dg_message : string
}.

(** [delegate_task].  [uuid_hex] stands for [uuid.uuid4().hex[:12]], the
    random part of the task identifier. *)
Definition delegate_task (uuid_hex : string) (description task_type : string)
    (required_capabilities : option (list string)) (priority : Z)
    (parent_agent_id : option string) : M Delegation :=
  let task_id := "task-" ++ uuid_hex in
  now <- time_time ;;
  assignment <-
    match required_capabilities with
    | Some required =>
        if Py.truthy_list required_capabilities then
          agents <- (fun w => Some (select_agents now (active_agents w), w)) ;;
          match capable_agents required agents with
          | (assigned_agent, _) :: _ =>
              (fun w => Some (tt, set_active_agents
                                    (update_where (agent_is assigned_agent)
                                                  (bump_workload 1)
                                                  (active_agents w)) w)) ;;;
              ret (Some assigned_agent, "pending")
          | [] => ret (None, "pending")
          end
        else ret (None, "pending")
    | None => ret (None, "pending")
    end ;;
  let (assigned_agent, status) := assignment : option string * string in
  let caps_str :=
    match required_capabilities with
    | Some required =>
        if Py.truthy_list required_capabilities then Py.join "," required
        else ""
    | None => ""
    end in
  insert_task (mkTask task_id task_type description caps_str priority status
                      parent_agent_id assigned_agent now None None None 1) ;;;
  ret (mkDelegation task_id assigned_agent status
                    "Task delegated successfully").

(** [WHERE task_id = ? AND (assigned_agent_id = ? OR assigned_agent_id IS NULL)] *)
Definition claimable_by (task_id agent_id : string) (t : Task) : bool :=
  task_is task_id t
  && match tk_assigned_agent_id t with
     | Some a => String.eqb a agent_id
     | None => true
     end.

(** [WHERE task_id = ? AND assigned_agent_id IS NULL] *)
Definition unassigned (task_id : string) (t : Task) : bool :=
  task_is task_id t
  && match tk_assigned_agent_id t with Some _ => false | None => true end.

Definition set_claimed (now : Z) (t : Task) : Task :=
  mkTask (tk_task_id t) (tk_task_type t) (tk_description t)
         (tk_required_capabilities t) (tk_priority t) "claimed"
         (tk_parent_agent_id t) (tk_assigned_agent_id t) (tk_created_at t)
         (Some now) (tk_completed_at t) (tk_result t) (tk_success t).

Definition set_assigned (agent_id : string) (t : Task) : Task :=
  mkTask (tk_task_id t) (tk_task_type t) (tk_description t)
         (tk_required_capabilities t) (tk_priority t) (tk_status t)
         (tk_parent_agent_id t) (Some agent_id) (tk_created_at t)
         (tk_claimed_at t) (tk_completed_at t) (tk_result t) (tk_success t).

Definition claim_task (task_id agent_id : string) : M bool :=
  now <- time_time ;;
  (* Update task status *)
  (fun w => Some (tt, set_delegated_tasks
                        (update_where (claimable_by task_id agent_id)
                                      (set_claimed now)
                                      (delegated_tasks w)) w)) ;;;
  (* If task wasn't assigned, update assignment *)
  fun w =>
    let rows_updated := rowcount (unassigned task_id) (delegated_tasks w) in
    Some (0 <? rows_updated,
          set_delegated_tasks
            (update_where (unassigned task_id) (set_assigned agent_id)
                          (delegated_tasks w)) w).

Definition set_completed (now : Z) (result : string) (success : bool)
    (t : Task) : Task :=
  mkTask (tk_task_id t) (tk_task_type t) (tk_description t)
         (tk_required_capabilities t) (tk_priority t)
         (if success then "completed" else "failed")
         (tk_parent_agent_id t) (tk_assigned_agent_id t) (tk_created_at t)
         (tk_claimed_at t) (Some now) (Some result)
         (if success then 1 else 0).

(** [SELECT assigned_agent_id FROM delegated_tasks WHERE task_id = ?] as a
    scalar subquery: the value in the first row, [NULL] without one. *)
Definition assigned_agent_of (task_id : string) (tasks : list Task)
    : option string :=
  match fetchone (filter (task_is task_id) tasks) with
  | Some t => tk_assigned_agent_id t
  | None => None
  end.

(** [WHERE agent_id = (...)]: never true for [NULL]. *)
Definition agent_matches (who : option string) (a : Agent) : bool :=
  match who with
  | Some agent_id => agent_is agent_id a
  | None => false
  end.

Definition complete_task (task_id result : string) (success : bool)
    : M bool :=
  now <- time_time ;;
  fun w =>
    let rows_updated := rowcount (task_is task_id) (delegated_tasks w) in
    let tasks := update_where (task_is task_id)
                              (set_completed now result success)
                              (delegated_tasks w) in
    (* Decrement agent workload *)
    let who := assigned_agent_of task_id tasks in
    let agents := update_where (agent_matches who) (bump_workload (-1))
                               (active_agents w) in
    Some (0 <? rows_updated,
          set_active_agents agents (set_delegated_tasks tasks w)).

(** The dictionary returned by [get_task_status]. *)
Record TaskStatus := mkTaskStatus {
  ts_task_id : string;
  ts_task_type : string;
  ts_description : string;
  ts_required_capabilities : list string;
  ts_priority : Z;
  ts_status : string;
  ts_parent_agent_id : option string;
  ts_assigned_agent_id : option string;
  ts_created_at : Z;
  ts_claimed_at : option Z;
  ts_completed_at : option Z;
  ts_result : option string;
  ts_success : bool
}.

Definition get_task_status (task_id : string) : M (option TaskStatus) :=
  fun w =>
    match fetchone (filter (task_is task_id) (delegated_tasks w)) with
    | Some row =>
        Some (Some (mkTaskStatus
                      (tk_task_id row) (tk_task_type row) (tk_description row)
                      (if Py.truthy (tk_required_capabilities row)
                       then Py.split comma (tk_required_capabilities row)
                       else [])
                      (tk_priority row) (tk_status row)
                      (tk_parent_agent_id row) (tk_assigned_agent_id row)
                      (tk_created_at row) (tk_claimed_at row)
                      (tk_completed_at row) (tk_result row)
                      (negb (tk_success row =? 0))), w)
    | None => Some (None, w)
    end.

(** Workload of an agent as stored, [None] when it is not registered. *)
Definition workload_of (agent_id : string) (w : World) : option Z :=
  option_map ag_workload
             (fetchone (filter (agent_is agent_id) (active_agents w))).

(** Order of the rows after [ORDER BY workload ASC]. *)
Definition lighter (a b : Agent) : Prop := ag_workload a <= ag_workload b.

(** The agents [delegate_task] chooses from, in the order it considers
    them; nobody when no capability is required. *)
Definition eligible (required_capabilities : option (list string))
    (now : Z) (rows : list Agent) : list (string * Z) :=
  match required_capabilities with
  | Some required =>
      if Py.truthy_list required_capabilities
      then capable_agents required (select_agents now rows)
      else []
  | None => []
  end.

(** The text stored in [required_capabilities]. *)
Definition caps_column (required_capabilities : option (list string))
    : string :=
  match required_capabilities with
  | Some required =>
      if Py.truthy_list required_capabilities then Py.join "," required
      else ""
  | None => ""
  end.

End TaskDelegationSystem.

(** ** Sequential executions of the detector and the scheduler *)

Module Execution.

(** One call of the public interface that writes to [active_agents] or
    [delegated_tasks]. *)
Inductive Call : Type :=
| Register (agent_id : string) (capabilities : list string) (status : string)
| Heartbeat (agent_id : string) (status : option string)
| Unregister (agent_id : string)
| Cleanup (timeout_seconds : Z)
| Delegate (uuid_hex description task_type : string)
           (required_capabilities : option (list string)) (priority : Z)
           (parent_agent_id : option string)
| Claim (task_id agent_id : string)
| Complete (task_id result : string) (success : bool).

Definition is_complete (c : Call) : bool :=
  match c with Complete _ _ _ => true | _ => false end.

(** The world after a call, [None] if the call raised. *)
Definition perform (c : Call) (w : World) : option World :=
  match c with
  | Register agent_id capabilities status =>
      option_map snd (HeartbeatMonitor.register_agent agent_id capabilities
                                                      status w)
  | Heartbeat agent_id status =>
      option_map snd (HeartbeatMonitor.send_heartbeat agent_id status w)
  | Unregister agent_id =>
      option_map snd (HeartbeatMonitor.unregister_agent agent_id w)
  | Cleanup timeout_seconds =>
      option_map snd (HeartbeatMonitor.cleanup_stale_agents timeout_seconds w)
  | Delegate uuid_hex description task_type required priority parent =>
      option_map snd (TaskDelegationSystem.delegate_task
                        uuid_hex description task_type required priority
                        parent w)
  | Claim task_id agent_id =>
      option_map snd (TaskDelegationSystem.claim_task task_id agent_id w)
  | Complete task_id result success =>
      option_map snd (TaskDelegationSystem.complete_task task_id result
                                                         success w)
  end.

Fixpoint run (calls : list Call) (w : World) : option World :=
  match calls with
  | [] => Some w
  | c :: rest =>
      match perform c w with
      | Some w' => run rest w'
      | None => None
      end
  end.

(** No agent has a negative workload. *)
Definition workloads_nonneg (w : World) : Prop :=
  Forall (fun a => 0 <= ag_workload a) (active_agents w).

End Execution.

(** ** Concrete scenarios used to exercise the statements below *)

Module Scenario.

(** A clock that advances by one second per reading. *)
Definition seconds : nat -> Z := fun n => Z.of_nat n.

(** A clock that advances by a thousand seconds per reading, starting at
    1000. *)
Definition slow_reader : nat -> Z := fun n => 1000 * (Z.of_nat n + 1).

(** Result of a computation, or the given world if it raised. *)
Definition world_after (A : Type) (m : M A) (w : World) : World :=
  match m w with
  | Some (_, w') => w'
  | None => w
  end.

(** Agent a holds f, agent b polls once in vain, a releases. *)
Definition contended : World :=
  world_after
    (FileLockCoordinator.acquire_lock 2 "agent-a" "f" "write" 5 ;;;
     FileLockCoordinator.acquire_poll "agent-b" "f" "write" ;;;
     FileLockCoordinator.release_lock "agent-a" "f")
    (fresh_world seconds).

(** A lock on f taken at time 0 by agent a, observed by a process whose
    clock reads 1000 and later. *)
Definition abandoned : World :=
  mkWorld slow_reader 0 [mkFileLock "f" "agent-a" "write" 0 300] [] [].

(** An agent whose last heartbeat is exactly sixty seconds old on every
    reading of the clock. *)
Definition at_cutoff : World :=
  mkWorld (fun _ => 60) 0 []
          [mkAgent "worker-02" "security,scanning" "idle" 0 0 0] [].

(** One agent able to do security work, last heard of at time 0, seen
    by a process whose clock reads 30. *)
Definition quiet_agent : World :=
  mkWorld (fun _ => 30) 0 []
          [mkAgent "security-agent-01" "security,code-analysis" "active"
                   0 0 0] [].

(** The three agents of the demonstration, all just heard of. *)
Definition three_agents : World :=
  mkWorld seconds 0 []
          [mkAgent "security-agent-01" "security,code-analysis" "active"
                   0 0 0;
           mkAgent "docker-agent-01" "docker,deployment" "active" 0 0 0;
           mkAgent "general-agent-01" "general" "active" 0 0 0] [].

(** The security task of the demonstration, as [delegate_task] files it. *)
Definition security_audit : Execution.Call :=
  Execution.Delegate "0123456789ab"
                     "Analyze authentication module for vulnerabilities"
                     "security-audit" (Some ["security"; "code-analysis"]) 1
                     None.

(** The store once the security task has been delegated. *)
Definition audit_pending : World :=
  match Execution.run [security_audit] three_agents with
  | Some w => w
  | None => three_agents
  end.

(** Two general agents seen by a process whose clock reads 30: alpha, busy
    with five tasks, was heard of at 25; beta, idle, at 0. *)
Definition alpha_and_beta : World :=
  mkWorld (fun _ => 30) 0 []
          [mkAgent "alpha" "general" "active" 25 0 5;
           mkAgent "beta" "general" "active" 0 0 0] [].

End Scenario.

(** ** The change history of FileLockCoordinator (file_locking.py) *)

Module ChangeHistory.

(** Row of [change_history] ([id INTEGER PRIMARY KEY AUTOINCREMENT]). *)
Record ChangeRecord := mkChangeRecord {
  ch_id : Z;
  ch_agent_id : string;
  ch_file_path : string;
  ch_change_type : string;
  ch_timestamp : Z
}.

(** The store with its fourth table and the counter that SQLite keeps in
    [sqlite_sequence] for it: the largest [id] ever handed out. *)
Record Journal := mkJournal {
  store : World;
  change_history : list ChangeRecord;
  sqlite_sequence : Z
}.

(** A database in which the four tables have just been created. *)
Definition fresh_journal (clk : nat -> Z) : Journal :=
  mkJournal (fresh_world clk) [] 0.

(** Computations over the whole database. *)
Definition J (A : Type) : Type := Journal -> option (A * Journal).

Definition retJ (A : Type) (a : A) : J A := fun j => Some (a, j).

Definition bindJ (A B : Type) (m : J A) (k : A -> J B) : J B :=
  fun j => match m j with
           | Some (a, j') => k a j'
           | None => None
           end.

(** A computation that only touches the three other tables and the
    clock. *)
Definition lift (A : Type) (m : M A) : J A :=
  fun j => match m (store j) with
           | Some (a, w') =>
               Some (a, mkJournal w' (change_history j) (sqlite_sequence j))
           | None => None
           end.

(** Largest [id] present in the table, 0 when it is empty. *)
Definition largest_id (rows : list ChangeRecord) : Z :=
  fold_right (fun r m => Z.max (ch_id r) m) 0 rows.

(** The [id] that [AUTOINCREMENT] gives to the next row: one more than the
    largest of those in the table and those handed out before. *)
Definition next_id (j : Journal) : Z :=
  Z.max (largest_id (change_history j)) (sqlite_sequence j) + 1.

Definition record_change (agent_id file_path change_type : string) : J Z :=
  bindJ (lift time_time) (fun t =>
  fun j =>
    let change_id := next_id j in
    Some (change_id,
          mkJournal (store j)
                    (change_history j
                     ++ [mkChangeRecord change_id agent_id file_path
                                        change_type t])
                    change_id)).

(** [WHERE file_path = ? AND timestamp > ?] *)
Definition in_window (file_path : string) (cutoff_time : Z)
    (r : ChangeRecord) : bool :=
  String.eqb (ch_file_path r) file_path && (cutoff_time <? ch_timestamp r).

(** [ORDER BY timestamp DESC], as a stable insertion sort: rows of equal
    timestamp stay in scan order. *)
Fixpoint insert_latest (r : ChangeRecord) (rows : list ChangeRecord)
    : list ChangeRecord :=
  match rows with
  | [] => [r]
  | r' :: rest =>
      if ch_timestamp r' <=? ch_timestamp r then r :: r' :: rest
      else r' :: insert_latest r rest
  end.

Definition latest_first (rows : list ChangeRecord) : list ChangeRecord :=
  fold_right insert_latest [] rows.

(** The dictionary returned by [check_conflicts]. *)
Record Conflict := mkConflict {
  cf_has_conflict : bool;
  cf_last_agent : string;
  cf_change_type : string;
  cf_timestamp : Z;
  cf_age_seconds : Z
}.

Definition check_conflicts (file_path : string) (window_seconds : Z)
    : J (option Conflict) :=
  bindJ (lift time_time) (fun t =>
  let cutoff_time := t - window_seconds in
  bindJ (fun j => Some (fetchone
                          (latest_first
                             (filter (in_window file_path cutoff_time)
                                     (change_history j))), j))
        (fun result =>
  match result with
  | Some r =>
      bindJ (lift time_time) (fun now =>
      retJ (Some (mkConflict true (ch_agent_id r) (ch_change_type r)
                             (ch_timestamp r) (now - ch_timestamp r))))
  | None => retJ None
  end)).

End ChangeHistory.

(** ** Listing tasks (task_delegation.py) *)

Module TaskListing.

(** An entry of the list returned by [list_tasks]. *)
Record TaskSummary := mkTaskSummary {
  tl_task_id : string;
  tl_task_type : string;
  tl_description : string;
  tl_priority : Z;
  tl_status : string;
  tl_assigned_agent_id : option string;
  tl_created_at : Z
}.

Definition summary (t : Task) : TaskSummary :=
  mkTaskSummary (tk_task_id t) (tk_task_type t) (tk_description t)
                (tk_priority t) (tk_status t) (tk_assigned_agent_id t)
                (tk_created_at t).

(** [ORDER BY priority ASC, created_at ASC]: [a] may come before [b]. *)
Definition by_priority (a b : Task) : bool :=
  (tk_priority a <? tk_priority b)
  || ((tk_priority a =? tk_priority b)
      && (tk_created_at a <=? tk_created_at b)).

(** [ORDER BY created_at DESC]: [a] may come before [b]. *)
Definition newest_first (a b : Task) : bool :=
  tk_created_at b <=? tk_created_at a.

(** [ORDER BY], as a stable insertion sort: rows that compare equal stay in
    scan order. *)
Fixpoint insert_by (before : Task -> Task -> bool) (a : Task)
    (rows : list Task) : list Task :=
  match rows with
  | [] => [a]
  | b :: rest =>
      if before a b then a :: b :: rest
      else b :: insert_by before a rest
  end.

Definition order_by (before : Task -> Task -> bool) (rows : list Task)
    : list Task :=
  fold_right (insert_by before) [] rows.

(** [WHERE status = ?] *)
Definition has_status (status : string) (t : Task) : bool :=
  String.eqb (tk_status t) status.

Definition list_tasks (status_filter : option string) (priority_order : bool)
    : M (list TaskSummary) :=
  fun w =>
    let selected :=
      match status_filter with
      | Some status =>
          if Py.truthy status
          then filter (has_status status) (delegated_tasks w)
          else delegated_tasks w
      | None => delegated_tasks w
      end in
    let ordered :=
      if priority_order then order_by by_priority selected
      else order_by newest_first selected in
    Some (map summary ordered, w).

End TaskListing.

(** ** The agent of the basic example (examples/basic_coordination.py) *)

Module BasicCoordination.
Import ChangeHistory.


End BasicCoordination.

(** * Properties *)

Unset Implicit Arguments.

Module LockFacts.
Import FileLockCoordinator.

Lemma filter_nil_existsb (A : Type) (p : A -> bool) (l : list A) :
  filter p l = [] <-> existsb p l = false.
Proof.
  induction l as [|x l IH]; simpl; [tauto|].
  destruct (p x); simpl; [split; discriminate | exact IH].
Qed.

Lemma NoDup_map_filter (A K : Type) (key : A -> K) (keep : A -> bool)
    (rows : list A) :
  NoDup (map key rows) -> NoDup (map key (filter keep rows)).
Proof.
  induction rows as [|r rows IH]; simpl; intros H; [constructor|].
  inversion H as [|? ? Hr Hrows]; subst.
  destruct (keep r); simpl; auto.
  constructor; auto.
  intros Hin. apply Hr.
  apply in_map_iff in Hin. destruct Hin as [r' [Hkey Hin]].
  apply filter_In in Hin. apply in_map_iff. exists r'. tauto.
Qed.

Lemma unique_paths_insert (row : FileLock) (rows : list FileLock) :
  unique_paths rows ->
  filter (on_path (fl_file_path row)) rows = [] ->
  unique_paths (rows ++ [row]).
Proof.
  unfold unique_paths. intros Hu Hf.
  rewrite map_app. simpl.
  apply NoDup_app; auto.
  - constructor; [simpl; tauto | constructor].
  - intros p Hin [Hp|[]]. subst p.
    apply in_map_iff in Hin. destruct Hin as [r [Hr Hin]].
    assert (In r (filter (on_path (fl_file_path row)) rows)) as Habs.
    { apply filter_In. split; auto. unfold on_path. now apply String.eqb_eq. }
    rewrite Hf in Habs. exact Habs.
Qed.

Lemma unique_paths_rows_for (file_path : string) (rows : list FileLock) :
  unique_paths rows -> (List.length (rows_for file_path rows) <= 1)%nat.
Proof.
  unfold unique_paths, rows_for.
  induction rows as [|r rows IH]; simpl; intros H; [lia|].
  inversion H as [|? ? Hr Hrows]; subst.
  destruct (on_path file_path r) eqn:Er; auto.
  simpl.
  assert (filter (on_path file_path) rows = []) as ->; [|simpl; lia].
  apply filter_nil_existsb.
  destruct (existsb (on_path file_path) rows) eqn:Ex; auto.
  exfalso. apply Hr.
  apply existsb_exists in Ex. destruct Ex as [r' [Hin Hr']].
  apply in_map_iff. exists r'. split; auto.
  unfold on_path in *. apply String.eqb_eq in Er, Hr'. congruence.
Qed.

(** Closed form of one polling pass. *)
Lemma acquire_poll_eq (agent_id file_path operation : string) (w : World) :
  let swept := sweep_expired (clock w (tick w)) (file_locks w) in
  let now := clock w (S (tick w)) in
  acquire_poll agent_id file_path operation w =
  match rows_for file_path swept with
  | [] =>
      Some (true,
            mkWorld (clock w) (S (S (tick w)))
                    (swept ++ [mkFileLock file_path agent_id operation now
                                          (now + lock_expiration)])
                    (active_agents w) (delegated_tasks w))
  | _ :: _ =>
      Some (false,
            mkWorld (clock w) (S (tick w)) (file_locks w)
                    (active_agents w) (delegated_tasks w))
  end.
Proof.
  intros swept now.
  unfold acquire_poll, bind, time_time, rows_for. simpl.
  fold swept.
  destruct (filter (on_path file_path) swept) eqn:Ef; simpl.
  - unfold insert_lock, set_file_locks, set_tick. simpl.
    apply filter_nil_existsb in Ef. rewrite Ef. reflexivity.
  - reflexivity.
Qed.

Lemma unique_paths_sweep (now : Z) (rows : list FileLock) :
  unique_paths rows -> unique_paths (sweep_expired now rows).
Proof. apply NoDup_map_filter. Qed.

Lemma acquire_poll_unique (agent_id file_path operation : string)
    (w : World) (b : bool) (w' : World) :
  acquire_poll agent_id file_path operation w = Some (b, w') ->
  unique_paths (file_locks w) -> unique_paths (file_locks w').
Proof.
  rewrite acquire_poll_eq. intros H Hu.
  destruct (rows_for file_path _) eqn:Ef; inversion H; subst; simpl.
  - apply unique_paths_insert; [now apply unique_paths_sweep | exact Ef].
  - exact Hu.
Qed.

Lemma acquire_loop_unique (fuel : nat) (start_time : Z)
    (agent_id file_path operation : string) (timeout_seconds : Z)
    (w : World) (r : option bool) (w' : World) :
  acquire_loop fuel start_time agent_id file_path operation timeout_seconds w
  = Some (r, w') ->
  unique_paths (file_locks w) -> unique_paths (file_locks w').
Proof.
  revert w. induction fuel as [|fuel IH]; simpl; intros w H Hu.
  - inversion H; subst; exact Hu.
  - unfold bind at 1 in H. simpl in H.
    destruct (_ <? timeout_seconds).
    + unfold bind at 1 in H.
      destruct (acquire_poll _ _ _ _) as [[b w1]|] eqn:Ep; [|discriminate].
      apply acquire_poll_unique in Ep; [|exact Hu].
      destruct b.
      * inversion H; subst; exact Ep.
      * apply (IH w1); assumption.
    + inversion H; subst; exact Hu.
Qed.

Lemma mapM_clock_only (A B : Type) (g : A -> Z -> B) (l : list A) (w : World) :
  exists ys n,
    mapM (fun x => now <- time_time ;; ret (g x now)) l w
    = Some (ys, set_tick n w).
Proof.
  set (f := fun x => now <- time_time ;; ret (g x now)).
  revert w. induction l as [|x l IH]; intros w.
  - exists [], (tick w). now destruct w.
  - destruct (IH (set_tick (S (tick w)) w)) as [ys [n E]].
    exists (g x (clock w (tick w)) :: ys), n.
    cbn [mapM]. unfold bind at 1.
    change (f x w) with (Some (g x (clock w (tick w)), set_tick (S (tick w)) w)).
    unfold bind. rewrite E. reflexivity.
Qed.

Lemma step_unique (w w' : World) :
  step w w' -> unique_paths (file_locks w) -> unique_paths (file_locks w').
Proof.
  intros [w0 t w1 H|a f op w0 b w1 H|fuel a f op tmo w0 r w1 H
         |a f w0 b w1 H|w0 l w1 H] Hu.
  - inversion H; subst; exact Hu.
  - eapply acquire_poll_unique; eauto.
  - unfold acquire_lock, bind in H. simpl in H.
    eapply acquire_loop_unique; eauto.
  - inversion H; subst; simpl. now apply NoDup_map_filter.
  - unfold get_all_locks in H. unfold bind at 1 in H. simpl in H.
    unfold bind at 1 in H. simpl in H. unfold bind at 1 in H. simpl in H.
    match type of H with mapM ?f ?l ?w = _ =>
      destruct (mapM_clock_only _ _
                  (fun row now =>
                     mkLockInfo (fl_file_path row) (fl_agent_id row)
                                (fl_operation row) (fl_lock_time row)
                                (fl_expires_at row) (now - fl_lock_time row))
                  l w) as [ys [n E]] end.
    rewrite E in H. inversion H; subst; simpl.
    now apply unique_paths_sweep.
Qed.

Lemma steps_unique (w w' : World) :
  steps w w' -> unique_paths (file_locks w) -> unique_paths (file_locks w').
Proof.
  induction 1 as [|w1 w2 w3 H12 _ IH]; auto.
  intros Hu. apply IH. eapply step_unique; eauto.
Qed.

(** C1.  The lock table never holds two rows for one resource: from any
    table that respects its primary key, whatever the interleaving of
    clock reads, polling passes and whole calls of [acquire_lock],
    [release_lock] and [get_all_locks], every resource has at most one
    row, hence at most one live row at any time; and a polling pass adds a
    row exactly when the swept table has none for the resource, and
    otherwise leaves the table as it found it. *)
Theorem at_most_one_lock_row (w w' : World) :
  unique_paths (file_locks w) ->
  steps w w' ->
  (forall file_path now,
      (List.length (rows_for file_path (file_locks w')) <= 1)%nat /\
      (List.length (live_rows_for now file_path (file_locks w')) <= 1)%nat) /\
  (forall agent_id file_path operation b w'',
      acquire_poll agent_id file_path operation w' = Some (b, w'') ->
      let swept := sweep_expired (clock w' (tick w')) (file_locks w') in
      (b = true /\ rows_for file_path swept = [] /\
       exists row, fl_file_path row = file_path /\
                   file_locks w'' = (swept ++ [row])%list) \/
      (b = false /\ rows_for file_path swept <> [] /\
       file_locks w'' = file_locks w')).
Proof.
  intros Hu Hs. split.
  - intros file_path now.
    assert (List.length (rows_for file_path (file_locks w')) <= 1)%nat as Hle
      by (apply unique_paths_rows_for; eapply steps_unique; eauto).
    split; [exact Hle|].
    unfold live_rows_for.
    eapply Nat.le_trans; [apply filter_length_le | exact Hle].
  - intros agent_id file_path operation b w'' H swept.
    rewrite acquire_poll_eq in H. fold swept in H.
    destruct (rows_for file_path swept) eqn:Ef; inversion H; subst; simpl.
    + left. repeat split; auto. eexists. split; [|reflexivity]. reflexivity.
    + right. repeat split; auto. discriminate.
Qed.

(** The invariant on the store left by a contended acquisition followed by
    a release. *)
Lemma at_most_one_lock_row_witness :
  (List.length (rows_for "f" (file_locks Scenario.contended)) <= 1)%nat.
Proof.
  refine (proj1 (proj1 (@at_most_one_lock_row
                          (fresh_world Scenario.seconds)
                          Scenario.contended _ _) "f" 0)).
  - constructor.
  - eapply steps_cons;
      [eapply (@step_acquire 2 "agent-a" "f" "write" 5); reflexivity|].
    eapply steps_cons;
      [eapply (@step_poll "agent-b" "f" "write"); reflexivity|].
    eapply steps_cons;
      [eapply (@step_release "agent-a" "f"); reflexivity|].
    apply steps_refl.
Defined.

(** C6 (as stated, refuted).  An agent whose lease has expired but whose
    row has not been swept yet is answered [True], and the row goes. *)
Lemma release_after_expiry_returns_true :
  let w := Scenario.abandoned in
  let now := clock w (tick w) in
  forallb (expired now) (file_locks w) = true /\
  exists w', release_lock "agent-a" "f" w = Some (true, w') /\
             file_locks w' = [].
Proof. split; [reflexivity|]. eexists. split; reflexivity. Qed.

(** C6 (amended).  [release_lock] never raises and never looks at the
    clock or at [expires_at]: it removes exactly the rows of the resource
    that name the caller, answers [True] exactly when there was one, and
    answers [False] leaving the store as it was otherwise (no row for the
    resource, or a row naming another agent). *)
Theorem release_lock_removes_own_row (agent_id file_path : string) (w : World) :
  exists b w',
    release_lock agent_id file_path w = Some (b, w') /\
    file_locks w' =
      filter (fun r => negb (held_by file_path agent_id r)) (file_locks w) /\
    (b = true <->
     exists r, In r (file_locks w) /\ fl_file_path r = file_path /\
               fl_agent_id r = agent_id) /\
    (b = true <->
     (List.length (file_locks w') < List.length (file_locks w))%nat) /\
    (b = false -> w' = w).
Proof.
  unfold release_lock. eexists _, _. split; [reflexivity|]. simpl.
  split; [reflexivity|].
  unfold rowcount, delete_where.
  set (p := held_by file_path agent_id).
  assert (forall rows : list FileLock,
             (List.length (filter (fun r => negb (p r)) rows)
              + List.length (filter p rows) = List.length rows)%nat) as Hlen.
  { induction rows as [|r rows IH]; simpl; auto.
    destruct (p r); simpl; lia. }
  assert (forall rows : list FileLock,
             filter p rows = [] -> filter (fun r => negb (p r)) rows = rows)
    as Hsame.
  { induction rows as [|r rows IH]; simpl; auto.
    destruct (p r); simpl; [discriminate|]. intros E. now rewrite IH. }
  split; [|split].
  - rewrite Z.ltb_lt. split.
    + intros Hpos.
      destruct (filter p (file_locks w)) as [|r rest] eqn:Ef;
        [simpl in Hpos; lia|].
      assert (In r (filter p (file_locks w))) as Hin
          by (rewrite Ef; now left).
      apply filter_In in Hin. destruct Hin as [Hin Hp].
      unfold p, held_by in Hp. apply andb_true_iff in Hp.
      destruct Hp as [Hp1 Hp2].
      apply String.eqb_eq in Hp1, Hp2. now exists r.
    + intros [r [Hin [Hp1 Hp2]]].
      assert (In r (filter p (file_locks w))) as Hin'.
      { apply filter_In. split; auto. unfold p, held_by.
        apply andb_true_iff. split; now apply String.eqb_eq. }
      destruct (filter p (file_locks w)); [destruct Hin'|simpl; lia].
  - rewrite Z.ltb_lt. specialize (Hlen (file_locks w)). lia.
  - rewrite Z.ltb_ge. intros Hz.
    assert (filter p (file_locks w) = []) as Ef
        by (destruct (filter p (file_locks w)); [reflexivity|simpl in Hz; lia]).
    unfold set_file_locks. rewrite (Hsame _ Ef). now destruct w.
Qed.

(** C7.  A resource whose rows have all expired by the time [acquire_lock]
    is called is granted at the first polling pass, provided the clock
    does not run backwards and the first test of the loop finds the
    timeout not yet used up: the call returns [True], the expired rows are
    swept and the only row left for the resource is the caller's, with a
    lease of 300 seconds. *)
Theorem expired_lock_is_acquirable (fuel : nat)
    (agent_id file_path operation : string) (timeout_seconds now : Z)
    (w : World) :
  monotone (clock w) ->
  now <= clock w (tick w) ->
  (forall r, In r (file_locks w) -> fl_file_path r = file_path ->
             fl_expires_at r < now) ->
  clock w (S (tick w)) - clock w (tick w) < timeout_seconds ->
  exists w' lock_time,
    acquire_lock (S fuel) agent_id file_path operation timeout_seconds w
    = Some (Some true, w') /\
    now <= lock_time /\
    file_locks w' =
      (sweep_expired (clock w (S (S (tick w)))) (file_locks w)
       ++ [mkFileLock file_path agent_id operation lock_time
                      (lock_time + 300)])%list /\
    rows_for file_path (file_locks w') =
      [mkFileLock file_path agent_id operation lock_time (lock_time + 300)].
Proof.
  intros Hmono Hnow Hexp Hguard.
  set (t := clock w (S (S (tick w)))).
  assert (now <= t) as Ht.
  { etransitivity; [exact Hnow|]. apply Hmono. lia. }
  assert (rows_for file_path (sweep_expired t (file_locks w)) = []) as Hnone.
  { unfold rows_for, sweep_expired, delete_where.
    induction (file_locks w) as [|r rows IH]; simpl; auto.
    destruct (expired t r) eqn:Ee; simpl.
    - apply IH. intros r' Hin. apply Hexp. now right.
    - destruct (on_path file_path r) eqn:Ep.
      + exfalso. unfold on_path in Ep. apply String.eqb_eq in Ep.
        specialize (Hexp r (or_introl eq_refl) Ep).
        unfold expired in Ee. apply Z.ltb_ge in Ee. lia.
      + apply IH. intros r' Hin. apply Hexp. now right. }
  exists (mkWorld (clock w) (S (S (S (S (tick w)))))
                  (sweep_expired t (file_locks w)
                   ++ [mkFileLock file_path agent_id operation
                                  (clock w (S (S (S (tick w)))))
                                  (clock w (S (S (S (tick w)))) + 300)])
                  (active_agents w) (delegated_tasks w)),
         (clock w (S (S (S (tick w))))).
  split; [|split; [|split]].
  - unfold acquire_lock. unfold bind at 1. simpl.
    unfold bind at 1. simpl.
    apply Z.ltb_lt in Hguard. rewrite Hguard.
    unfold bind at 1. rewrite acquire_poll_eq. simpl.
    fold t. rewrite Hnone. reflexivity.
  - etransitivity; [exact Hnow|]. apply Hmono. lia.
  - reflexivity.
  - simpl. unfold rows_for in *. rewrite filter_app, Hnone. simpl.
    unfold on_path. simpl. now rewrite String.eqb_refl.
Qed.

(** Agent b takes over the lock that agent a abandoned. *)
Lemma expired_lock_is_acquirable_witness :
  exists w' lock_time,
    acquire_lock 1 "agent-b" "f" "write" 1500 Scenario.abandoned
    = Some (Some true, w') /\
    1000 <= lock_time /\
    file_locks w' =
      (sweep_expired (clock Scenario.abandoned 2)
                     (file_locks Scenario.abandoned)
       ++ [mkFileLock "f" "agent-b" "write" lock_time (lock_time + 300)])%list
    /\
    rows_for "f" (file_locks w') =
      [mkFileLock "f" "agent-b" "write" lock_time (lock_time + 300)].
Proof.
  apply (@expired_lock_is_acquirable 0 "agent-b" "f" "write" 1500 1000
           Scenario.abandoned).
  - intros i j Hij. simpl. unfold Scenario.slow_reader. lia.
  - vm_compute. discriminate.
  - intros r [<-|[]] _. reflexivity.
  - reflexivity.
Defined.
End LockFacts.
Module PyFacts.

Lemma split_not_nil (sep : ascii) (s : string) : Py.split sep s <> [].
Proof.
  destruct s as [|c s]; simpl; [discriminate|].
  destruct (Ascii.eqb c sep); [discriminate|].
  destruct (Py.split sep s); discriminate.
Qed.

Lemma split_length (sep : ascii) (s : string) :
  List.length (Py.split sep s) = S (Py.count sep s).
Proof.
  induction s as [|c s IH]; simpl; auto.
  destruct (Ascii.eqb c sep); simpl; [now rewrite IH|].
  destruct (Py.split sep s); simpl in *; [discriminate|exact IH].
Qed.

(** Splitting after a prefix without separator extends the first piece. *)
Lemma split_app (sep : ascii) (x s : string) :
  Py.count sep x = O ->
  Py.split sep (x ++ s) =
  match Py.split sep s with
  | piece :: pieces => (x ++ piece) :: pieces
  | [] => [x]
  end.
Proof.
  induction x as [|c x IH]; simpl; intros Hx.
  - destruct (Py.split sep s) eqn:E; auto. now apply split_not_nil in E.
  - destruct (Ascii.eqb c sep); [discriminate|].
    rewrite (IH Hx). destruct (Py.split sep s); reflexivity.
Qed.

Lemma append_empty (s : string) : s ++ "" = s.
Proof. induction s; simpl; congruence. Qed.

Lemma split_comma_free (sep : ascii) (x : string) :
  Py.count sep x = O -> Py.split sep x = [x].
Proof.
  intros Hx. rewrite <- (append_empty x) at 1.
  rewrite (split_app _ _ _ Hx). simpl. now rewrite append_empty.
Qed.

Lemma split_join (l : list string) :
  l <> [] -> Forall comma_free l -> Py.split comma (Py.join "," l) = l.
Proof.
  induction l as [|x l IH]; [congruence|]. intros _ Hall.
  inversion Hall as [|? ? Hx Hl]; subst.
  destruct l as [|y l].
  - simpl. now apply split_comma_free.
  - change (Py.join "," (x :: y :: l))
      with (x ++ "," ++ Py.join "," (y :: l)).
    rewrite (split_app _ _ _ Hx).
    change ("," ++ Py.join "," (y :: l))
      with (String comma (Py.join "," (y :: l))).
    cbn [Py.split]. rewrite Ascii.eqb_refl.
    rewrite IH; [|discriminate|exact Hl]. now rewrite append_empty.
Qed.

Lemma count_app (sep : ascii) (x y : string) :
  Py.count sep (x ++ y) = (Py.count sep x + Py.count sep y)%nat.
Proof.
  induction x as [|c x IH]; simpl; auto.
  destruct (Ascii.eqb c sep); simpl; now rewrite IH.
Qed.

(** Commas of a joined list: those of the tags and one between
    neighbours. *)
Lemma count_join (l : list string) :
  l <> [] ->
  S (Py.count comma (Py.join "," l)) =
  (List.length l + list_sum (map (Py.count comma) l))%nat.
Proof.
  induction l as [|x l IH]; [congruence|]. intros _.
  destruct l as [|y l].
  - simpl. lia.
  - change (Py.join "," (x :: y :: l))
      with (x ++ String comma (Py.join "," (y :: l))).
    rewrite count_app. cbn [Py.count]. rewrite Ascii.eqb_refl.
    assert (y :: l <> []) as Hne by discriminate.
    specialize (IH Hne). unfold list_sum in *.
    cbn [List.length map fold_right] in *. lia.
Qed.

Lemma truthy_iff (s : string) : Py.truthy s = true <-> s <> "".
Proof. destruct s; simpl; split; congruence. Qed.

Lemma join_nonempty (x : string) (l : list string) :
  x <> "" -> Py.join "," (x :: l) <> "".
Proof.
  intros Hx. destruct x as [|c x]; [congruence|].
  destruct l; simpl; discriminate.
Qed.

Lemma count_pos_nonempty (sep : ascii) (s : string) :
  (0 < Py.count sep s)%nat -> s <> "".
Proof. destruct s; simpl; [lia|discriminate]. Qed.

End PyFacts.

Module DetectorFacts.
Import HeartbeatMonitor PyFacts.

Lemma parse_join_clean (l : list string) :
  Forall clean_tag l -> parse_capabilities (Py.join "," l) = l.
Proof.
  unfold parse_capabilities. intros Hall.
  destruct l as [|x l]; [reflexivity|].
  inversion Hall as [|? ? [Hx _] _]; subst.
  assert (Py.truthy (Py.join "," (x :: l)) = true) as ->
      by (apply truthy_iff; now apply join_nonempty).
  apply split_join; [discriminate|].
  eapply Forall_impl; [|exact Hall]. now intros tag [_ Hc].
Qed.

Lemma parse_join_length (l : list string) :
  Exists has_comma l ->
  List.length (parse_capabilities (Py.join "," l)) =
  (List.length l + list_sum (map (Py.count comma) l))%nat /\
  (List.length l < List.length (parse_capabilities (Py.join "," l)))%nat.
Proof.
  intros Hex.
  assert (l <> []) as Hne by (intros ->; inversion Hex).
  assert (0 < list_sum (map (Py.count comma) l))%nat as Hsum.
  { clear Hne. induction Hex as [x l Hx|x l _ IH]; unfold list_sum in *;
      simpl; unfold has_comma in *; lia. }
  pose proof (count_join l Hne) as Hcount.
  unfold parse_capabilities.
  assert (Py.truthy (Py.join "," l) = true) as ->.
  { apply truthy_iff. apply (count_pos_nonempty comma).
    destruct l; [congruence|]. simpl List.length in Hcount. lia. }
  rewrite split_length. lia.
Qed.

Lemma filter_swap (A : Type) (p q : A -> bool) (l : list A) :
  filter p (filter q l) = filter q (filter p l).
Proof.
  induction l as [|x l IH]; simpl; auto.
  destruct (p x) eqn:Ep, (q x) eqn:Eq; simpl;
    rewrite ?Ep, ?Eq, IH; reflexivity.
Qed.

Lemma rowcount_delete_where (A : Type) (p : A -> bool) (l : list A) :
  rowcount p l
  = Z.of_nat (List.length l) - Z.of_nat (List.length (delete_where p l)).
Proof.
  unfold rowcount, delete_where.
  induction l as [|a l IH]; [reflexivity|].
  cbn [filter]. destruct (p a); cbn [negb List.length]; lia.
Qed.

Lemma rowcount_after_delete (A : Type) (p : A -> bool) (l : list A) :
  rowcount p (delete_where p l) = 0.
Proof.
  unfold rowcount, delete_where.
  induction l as [|a l IH]; [reflexivity|].
  cbn [filter]. destruct (p a) eqn:E; cbn [negb filter]; [exact IH|].
  now rewrite E.
Qed.

Lemma filter_insert_or_replace (row : Agent) (rows : list Agent) :
  filter (has_id (ag_agent_id row)) (insert_or_replace row rows) = [row].
Proof.
  unfold insert_or_replace, delete_where. rewrite filter_app. simpl.
  unfold has_id at 3. rewrite String.eqb_refl.
  induction rows as [|r rows IH]; simpl; auto.
  destruct (has_id (ag_agent_id row) r) eqn:E; simpl; auto.
  now rewrite E.
Qed.

Lemma collect_agents_spec (capability_filter : option (list string))
    (rows : list Agent) (w : World) :
  exists infos n,
    collect_agents capability_filter rows w = Some (infos, set_tick n w) /\
    Forall2 describes (filter (passes capability_filter) rows) infos.
Proof.
  revert w. induction rows as [|row rows IH]; intros w.
  - exists [], (tick w). split; [now destruct w|constructor].
  - cbn [collect_agents filter].
    assert ((match capability_filter with
             | Some wanted =>
                 Py.truthy_list capability_filter
                 && negb (Py.all_in wanted
                            (parse_capabilities (ag_capabilities row)))
             | None => false
             end) = negb (passes capability_filter row)) as ->.
    { unfold passes. destruct capability_filter; auto.
      now rewrite negb_orb, negb_involutive. }
    destruct (passes capability_filter row); cbn [negb].
    + destruct (IH (set_tick (S (tick w)) w)) as [infos [n [E HF]]].
      eexists _, n. unfold bind at 1. cbn [time_time].
      unfold bind at 1. rewrite E. split; [reflexivity|].
      constructor; [|exact HF]. repeat split.
    + apply IH.
Qed.

Lemma get_active_agents_spec (timeout_seconds : Z)
    (capability_filter : option (list string)) (w : World) :
  exists infos n,
    get_active_agents timeout_seconds capability_filter w
    = Some (infos, set_tick n w) /\
    Forall2 describes
            (filter (passes capability_filter)
                    (filter (recent (clock w (tick w) - timeout_seconds))
                            (active_agents w)))
            infos.
Proof.
  unfold get_active_agents. unfold bind at 1. cbn [time_time].
  unfold bind at 1.
  destruct (collect_agents_spec capability_filter
              (filter (recent (clock w (tick w) - timeout_seconds))
                      (active_agents w))
              (set_tick (S (tick w)) w)) as [infos [n [E HF]]].
  exists infos, n. split; [|exact HF].
  cbn [active_agents set_tick]. exact E.
Qed.

Lemma describes_capabilities_of (agent_id : string) (rows : list Agent)
    (infos : list AgentInfo) :
  Forall2 describes rows infos ->
  map ai_capabilities
      (filter (fun i => String.eqb (ai_agent_id i) agent_id) infos) =
  map (fun r => parse_capabilities (ag_capabilities r))
      (filter (has_id agent_id) rows).
Proof.
  induction 1 as [|row info rows infos [Hid [Hcaps _]] _ IH]; simpl; auto.
  unfold has_id at 1. rewrite Hid.
  destruct (String.eqb (ag_agent_id row) agent_id); simpl; congruence.
Qed.

(** C10.  [register_agent] stores the tags joined by commas and both
    queries read the column back by splitting at commas.  What comes back
    is the registered list when every tag is non-empty and free of commas
    (the empty list included); when some tag contains a comma, what comes
    back has one more entry per comma in the tags. *)
Theorem capabilities_round_trip (timeout_seconds : Z) (agent_id : string)
    (capabilities : list string) (status : string) (w : World) :
  let stored := parse_capabilities (Py.join "," capabilities) in
  exists w1,
    register_agent agent_id capabilities status w = Some (true, w1) /\
    (exists st w2,
        get_agent_status timeout_seconds agent_id w1 = Some (Some st, w2) /\
        as_capabilities st = stored) /\
    (clock w (S (tick w)) - clock w (tick w) < timeout_seconds ->
     exists infos w2,
       get_active_agents timeout_seconds None w1 = Some (infos, w2) /\
       map ai_capabilities
           (filter (fun i => String.eqb (ai_agent_id i) agent_id) infos)
       = [stored]) /\
    (Forall clean_tag capabilities -> stored = capabilities) /\
    (Exists has_comma capabilities ->
     List.length stored =
       (List.length capabilities
        + list_sum (map (Py.count comma) capabilities))%nat /\
     (List.length capabilities < List.length stored)%nat).
Proof.
  intros stored.
  set (now := clock w (tick w)).
  set (row := mkAgent agent_id (Py.join "," capabilities) status now now 0).
  exists (mkWorld (clock w) (S (tick w)) (file_locks w)
                  (insert_or_replace row (active_agents w))
                  (delegated_tasks w)).
  split; [reflexivity|].
  pose proof (filter_insert_or_replace row (active_agents w)) as Hrow.
  simpl ag_agent_id in Hrow.
  split; [|split; [|split]].
  - unfold get_agent_status. unfold bind at 1. cbn [active_agents].
    rewrite Hrow. cbn [fetchone hd_error]. unfold bind.
    cbn [time_time]. eexists _, _. split; reflexivity.
  - intros Hlive.
    match goal with |- context [get_active_agents _ _ ?w1] =>
      destruct (get_active_agents_spec timeout_seconds None w1)
        as [infos [n [E HF]]] end.
    exists infos. eexists. split; [exact E|].
    rewrite (describes_capabilities_of agent_id _ _ HF).
    cbn [passes clock tick active_agents] in *.
    rewrite (forallb_filter_id (passes None))
      by (apply forallb_forall; reflexivity).
    rewrite filter_swap.
    rewrite Hrow. cbn [filter recent ag_last_heartbeat row].
    assert (recent (clock w (S (tick w)) - timeout_seconds) row = true) as ->
        by (apply Z.ltb_lt; simpl; unfold now; lia).
    reflexivity.
  - apply parse_join_clean.
  - apply parse_join_length.
Qed.

(** The first worker of the demonstration reads its two tags back. *)
Lemma capabilities_round_trip_witness :
  exists w1 st w2,
    register_agent "worker-01" ["data-processing"; "analysis"] "idle"
                   (fresh_world Scenario.seconds) = Some (true, w1) /\
    get_agent_status 10 "worker-01" w1 = Some (Some st, w2) /\
    as_capabilities st = ["data-processing"; "analysis"].
Proof.
  destruct (capabilities_round_trip 10 "worker-01"
              ["data-processing"; "analysis"] "idle"
              (fresh_world Scenario.seconds))
    as [w1 [Hreg [[st [w2 [Hst Hcaps]]] [_ [Hclean _]]]]].
  exists w1, st, w2. split; [exact Hreg|]. split; [exact Hst|].
  rewrite Hcaps. apply Hclean.
  repeat constructor; try discriminate.
Defined.

(** What [cleanup_stale_agents] does: it removes the agents whose last
    heartbeat is strictly older than the timeout, reports how many, and
    finds nothing more to remove at the same clock reading. *)
Lemma cleanup_stale_agents_spec (timeout_seconds : Z) (w : World) :
  let now := clock w (tick w) in
  let kept := filter (fun a => now - ag_last_heartbeat a <=? timeout_seconds)
                     (active_agents w) in
  exists removed w',
    cleanup_stale_agents timeout_seconds w = Some (removed, w') /\
    active_agents w' = kept /\
    removed = Z.of_nat (List.length (active_agents w))
              - Z.of_nat (List.length kept) /\
    rowcount (stale (now - timeout_seconds)) kept = 0.
Proof.
  intros now kept.
  unfold cleanup_stale_agents, bind. cbn [time_time].
  eexists _, _. split; [reflexivity|]. cbn [active_agents set_tick].
  fold now.
  assert (forall a, negb (stale (now - timeout_seconds) a)
                    = (now - ag_last_heartbeat a <=? timeout_seconds)) as Hneg.
  { intros a. unfold stale.
    destruct (Z.ltb_spec (ag_last_heartbeat a) (now - timeout_seconds));
      destruct (Z.leb_spec (now - ag_last_heartbeat a) timeout_seconds);
      simpl; auto; lia. }
  assert (delete_where (stale (now - timeout_seconds)) (active_agents w)
          = kept) as Hkept.
  { unfold delete_where, kept. apply filter_ext. exact Hneg. }
  split; [exact Hkept|]. split.
  - rewrite <- Hkept. apply rowcount_delete_where.
  - rewrite <- Hkept. apply rowcount_after_delete.
Qed.

(** C5 (the code at the boundary).  An agent whose last heartbeat is
    exactly [timeout_seconds] old fails the liveness test, is reported as
    not alive and is left out of the active agents, yet
    [cleanup_stale_agents] keeps it and returns 0. *)
Theorem cleanup_keeps_agent_at_cutoff :
  let w := Scenario.at_cutoff in
  forallb (is_live 60 (clock w (tick w))) (active_agents w) = false /\
  option_map fst (get_active_agents 60 None w) = Some [] /\
  option_map (fun r => option_map as_is_alive (fst r))
             (get_agent_status 60 "worker-02" w) = Some (Some false) /\
  option_map (fun r => (fst r, active_agents (snd r)))
             (cleanup_stale_agents 60 w) = Some (0, active_agents w).
Proof. repeat split. Qed.
End DetectorFacts.
Module SchedulerFacts.
Import TaskDelegationSystem Execution.

(** *** Ordering by workload *)

Lemma insert_by_workload_perm (a : Agent) (rows : list Agent) :
  Permutation (insert_by_workload a rows) (a :: rows).
Proof.
  induction rows as [|b rows IH]; simpl; auto.
  destruct (ag_workload a <=? ag_workload b); auto.
  etransitivity; [apply perm_skip, IH | apply perm_swap].
Qed.

Lemma order_by_workload_perm (rows : list Agent) :
  Permutation (order_by_workload rows) rows.
Proof.
  induction rows as [|a rows IH]; simpl; auto.
  etransitivity; [apply insert_by_workload_perm | now apply perm_skip].
Qed.

Lemma insert_by_workload_sorted (a : Agent) (rows : list Agent) :
  StronglySorted lighter rows ->
  StronglySorted lighter (insert_by_workload a rows).
Proof.
  induction 1 as [|b rows Hs IH Hb]; simpl.
  - repeat constructor.
  - destruct (Z.leb_spec (ag_workload a) (ag_workload b)).
    + constructor; [now constructor|].
      constructor; [assumption|].
      eapply Forall_impl; [|exact Hb]. unfold lighter. intros; lia.
    + constructor; [exact IH|].
      eapply Permutation_Forall;
        [symmetry; apply insert_by_workload_perm|].
      constructor; [unfold lighter; lia | exact Hb].
Qed.

Lemma order_by_workload_sorted (rows : list Agent) :
  StronglySorted lighter (order_by_workload rows).
Proof.
  induction rows as [|a rows IH]; simpl; [constructor|].
  now apply insert_by_workload_sorted.
Qed.

Lemma StronglySorted_filter (A : Type) (R : A -> A -> Prop) (p : A -> bool)
    (l : list A) :
  StronglySorted R l -> StronglySorted R (filter p l).
Proof.
  induction 1 as [|x l Hs IH Hx]; simpl; [constructor|].
  destruct (p x); auto. constructor; auto.
  apply Forall_forall. intros y Hy. apply filter_In in Hy.
  rewrite Forall_forall in Hx. now apply Hx.
Qed.

Lemma Permutation_filter (A : Type) (p : A -> bool) (l l' : list A) :
  Permutation l l' -> Permutation (filter p l) (filter p l').
Proof.
  induction 1 as [|x l l' _ IH|x y l|l l' l'' _ IH1 _ IH2]; simpl; auto.
  - destruct (p x); auto.
  - destruct (p x), (p y); auto. apply perm_swap.
  - etransitivity; eauto.
Qed.

(** *** The candidates of [delegate_task] *)

(** Closed form of [delegate_task]. *)
Lemma delegate_task_eq (uuid_hex description task_type : string)
    (required_capabilities : option (list string)) (priority : Z)
    (parent_agent_id : option string) (w : World) :
  let now := clock w (tick w) in
  let task_id := "task-" ++ uuid_hex in
  let assigned :=
    option_map fst
               (hd_error (eligible required_capabilities now (active_agents w)))
  in
  let agents :=
    match assigned with
    | Some a => update_where (agent_is a) (bump_workload 1) (active_agents w)
    | None => active_agents w
    end in
  delegate_task uuid_hex description task_type required_capabilities priority
                parent_agent_id w =
  if existsb (task_is task_id) (delegated_tasks w) then None
  else Some (mkDelegation task_id assigned "pending"
                          "Task delegated successfully",
             mkWorld (clock w) (S (tick w)) (file_locks w) agents
                     (delegated_tasks w
                      ++ [mkTask task_id task_type description
                                 (caps_column required_capabilities) priority
                                 "pending" parent_agent_id assigned now
                                 None None None 1])).
Proof.
  intros now task_id assigned agents.
  unfold delegate_task. unfold bind at 1. cbn [time_time].
  subst agents assigned. unfold eligible, caps_column.
  fold now. fold task_id.
  destruct required_capabilities as [required|];
    [destruct (Py.truthy_list (Some required)) eqn:Et|].
  - unfold bind, ret, insert_task.
    cbn [active_agents set_tick].
    destruct (capable_agents required (select_agents now (active_agents w)))
      as [|[a wl] rest];
      cbn [delegated_tasks set_tick set_active_agents tk_task_id
           hd_error option_map fst];
      destruct (existsb (task_is task_id) (delegated_tasks w)); reflexivity.
  - unfold bind, ret, insert_task.
    cbn [delegated_tasks set_tick tk_task_id hd_error option_map].
    destruct (existsb (task_is task_id) (delegated_tasks w)); reflexivity.
  - unfold bind, ret, insert_task.
    cbn [delegated_tasks set_tick tk_task_id hd_error option_map].
    destruct (existsb (task_is task_id) (delegated_tasks w)); reflexivity.
Qed.

(** *** Updates that leave the selecting column alone *)

Lemma filter_update_where (A : Type) (q p : A -> bool) (f : A -> A)
    (rows : list A) :
  (forall r, q (f r) = q r) ->
  filter q (update_where p f rows) = update_where p f (filter q rows).
Proof.
  intros Hq. unfold update_where.
  induction rows as [|r rows IH]; simpl; auto.
  assert (q (if p r then f r else r) = q r) as ->
      by (destruct (p r); auto).
  destruct (q r); simpl; now rewrite IH.
Qed.

Lemma rowcount_update_where (A : Type) (q p : A -> bool) (f : A -> A)
    (rows : list A) :
  (forall r, q (f r) = q r) ->
  rowcount q (update_where p f rows) = rowcount q rows.
Proof.
  intros Hq. unfold rowcount. rewrite filter_update_where by exact Hq.
  unfold update_where. now rewrite length_map.
Qed.

Lemma filter_fresh (A : Type) (q : A -> bool) (rows : list A) (row : A) :
  existsb q rows = false -> q row = true ->
  filter q (rows ++ [row]) = [row].
Proof.
  intros Hfresh Hrow. rewrite filter_app. simpl. rewrite Hrow.
  apply LockFacts.filter_nil_existsb in Hfresh. now rewrite Hfresh.
Qed.

Lemma task_is_refl (task_id : string) (t : Task) :
  tk_task_id t = task_id -> task_is task_id t = true.
Proof. intros <-. apply String.eqb_refl. Qed.

(** How a change of workload shows in [workload_of]. *)
Lemma workload_of_bump (who : option string) (delta : Z) (agent_id : string)
    (w w' : World) :
  active_agents w' =
    update_where (agent_matches who) (bump_workload delta) (active_agents w) ->
  workload_of agent_id w' =
    match who with
    | Some chosen =>
        if String.eqb agent_id chosen
        then option_map (fun load => load + delta) (workload_of agent_id w)
        else workload_of agent_id w
    | None => workload_of agent_id w
    end.
Proof.
  intros H. unfold workload_of. rewrite H. clear H.
  rewrite filter_update_where by reflexivity.
  induction (active_agents w) as [|a rows IH]; simpl.
  - destruct who as [chosen|]; [destruct (String.eqb agent_id chosen)|];
      reflexivity.
  - destruct (agent_is agent_id a) eqn:Ea; [|exact IH].
    simpl. unfold agent_is in Ea. apply String.eqb_eq in Ea.
    destruct who as [chosen|]; simpl; [|reflexivity].
    unfold agent_is. rewrite Ea.
    destruct (String.eqb agent_id chosen); reflexivity.
Qed.

(** Closed form of [claim_task]. *)
Lemma claim_task_eq (task_id agent_id : string) (w : World) :
  claim_task task_id agent_id w =
  Some (0 <? rowcount (unassigned task_id) (delegated_tasks w),
        mkWorld (clock w) (S (tick w)) (file_locks w) (active_agents w)
                (update_where (unassigned task_id) (set_assigned agent_id)
                   (update_where (claimable_by task_id agent_id)
                                 (set_claimed (clock w (tick w)))
                                 (delegated_tasks w)))).
Proof.
  unfold claim_task, bind. cbn [time_time].
  cbn [delegated_tasks set_delegated_tasks set_tick].
  rewrite rowcount_update_where by reflexivity. reflexivity.
Qed.

(** [claim_task] answers [True] exactly when the task exists and nobody
    is assigned to it. *)
Lemma claim_task_true_iff (task_id agent_id : string) (w : World) :
  option_map fst (claim_task task_id agent_id w) = Some true <->
  exists t, In t (delegated_tasks w) /\ tk_task_id t = task_id /\
            tk_assigned_agent_id t = None.
Proof.
  rewrite claim_task_eq. simpl. unfold rowcount. split.
  - intros H. injection H as H. apply Z.ltb_lt in H.
    destruct (filter (unassigned task_id) (delegated_tasks w)) as [|t l] eqn:E;
      [simpl in H; lia|].
    assert (In t (filter (unassigned task_id) (delegated_tasks w))) as Hin
        by (rewrite E; now left).
    apply filter_In in Hin. destruct Hin as [Hin Hu].
    unfold unassigned in Hu. apply andb_true_iff in Hu. destruct Hu as [H1 H2].
    exists t. split; [exact Hin|]. split.
    + now apply String.eqb_eq.
    + destruct (tk_assigned_agent_id t); [discriminate|reflexivity].
  - intros [t [Hin [Hid Hnone]]]. f_equal. apply Z.ltb_lt.
    assert (In t (filter (unassigned task_id) (delegated_tasks w))) as Hin'.
    { apply filter_In. split; [exact Hin|]. unfold unassigned.
      rewrite Hnone, (task_is_refl _ _ Hid). reflexivity. }
    destruct (filter (unassigned task_id) (delegated_tasks w));
      [destruct Hin'|simpl; lia].
Qed.

(** Closed form of [complete_task]. *)
Lemma complete_task_eq (task_id result : string) (success : bool) (w : World) :
  complete_task task_id result success w =
  Some (0 <? rowcount (task_is task_id) (delegated_tasks w),
        mkWorld (clock w) (S (tick w)) (file_locks w)
                (update_where
                   (agent_matches (assigned_agent_of task_id (delegated_tasks w)))
                   (bump_workload (-1)) (active_agents w))
                (update_where (task_is task_id)
                              (set_completed (clock w (tick w)) result success)
                              (delegated_tasks w))).
Proof.
  unfold complete_task, bind. cbn [time_time].
  cbn [delegated_tasks active_agents set_delegated_tasks set_active_agents
       set_tick clock tick file_locks].
  assert (forall now,
             assigned_agent_of task_id
               (update_where (task_is task_id)
                             (set_completed now result success)
                             (delegated_tasks w))
             = assigned_agent_of task_id (delegated_tasks w)) as ->.
  { intros now. unfold assigned_agent_of.
    rewrite filter_update_where by reflexivity.
    destruct (filter (task_is task_id) (delegated_tasks w)) as [|t l];
      [reflexivity|].
    simpl. destruct (task_is task_id t); reflexivity. }
  reflexivity.
Qed.

(** *** Who is eligible *)

Lemma eligible_iff (required : list string) (now : Z) (rows : list Agent)
    (c : string * Z) :
  required <> [] ->
  In c (eligible (Some required) now rows) <->
  exists a, In a rows /\ c = (ag_agent_id a, ag_workload a) /\
            now - ag_last_heartbeat a < 60 /\
            Py.all_in required (agent_caps (ag_capabilities a)) = true.
Proof.
  intros Hne. unfold eligible.
  assert (Py.truthy_list (Some required) = true) as ->
      by (destruct required; [congruence|reflexivity]).
  unfold capable_agents, select_agents. rewrite in_map_iff. split.
  - intros [a [Hc Hin]]. apply filter_In in Hin. destruct Hin as [Hin Hcap].
    apply (Permutation_in _ (order_by_workload_perm _)) in Hin.
    apply filter_In in Hin. destruct Hin as [Hin Hrecent].
    exists a. repeat split; auto. apply Z.ltb_lt in Hrecent. lia.
  - intros [a [Hin [Hc [Hlive Hcap]]]]. exists a. split; [now symmetry|].
    apply filter_In. split; [|exact Hcap].
    apply (Permutation_in _ (Permutation_sym (order_by_workload_perm _))).
    apply filter_In. split; [exact Hin|]. apply Z.ltb_lt. lia.
Qed.

Lemma eligible_sorted (required_capabilities : option (list string)) (now : Z)
    (rows : list Agent) :
  StronglySorted (fun c d : string * Z => snd c <= snd d)
                 (eligible required_capabilities now rows).
Proof.
  unfold eligible.
  destruct required_capabilities as [required|]; [|constructor].
  destruct (Py.truthy_list (Some required)); [|constructor].
  unfold capable_agents, select_agents.
  set (l := filter _ (order_by_workload _)).
  assert (StronglySorted lighter l) as Hs
      by (apply StronglySorted_filter, order_by_workload_sorted).
  induction Hs as [|a l Hs IH Ha]; simpl; constructor; auto.
  apply Forall_forall. intros c Hc. apply in_map_iff in Hc.
  destruct Hc as [b [<- Hb]]. rewrite Forall_forall in Ha. now apply Ha.
Qed.

(** C2 (as stated, refuted).  A monitor configured with a timeout of 15
    seconds no longer lists an agent last heard of 30 seconds ago, while
    [delegate_task] still assigns the task to it. *)
Lemma delegate_ignores_configured_timeout :
  let w := Scenario.quiet_agent in
  option_map fst (HeartbeatMonitor.get_active_agents 15 (Some ["security"]) w)
  = Some [] /\
  option_map (fun r => dg_assigned_agent (fst r))
             (delegate_task "0123456789ab" "Audit" "security-audit"
                            (Some ["security"]) 5 None w)
  = Some (Some "security-agent-01").
Proof. split; reflexivity. Qed.

(** C2 (amended).  For a non-empty list of required capabilities, the
    agents [delegate_task] chooses from are those heard of less than 60
    seconds ago that have every required capability: the agents that
    [get_active_agents] returns for the same filter when the monitor's
    timeout is 60.  The task goes to the first of them in order of workload,
    whose workload no candidate undercuts and is raised by one; without a
    candidate nobody is assigned and no workload changes. *)
Theorem delegate_chooses_least_loaded_live_agent
    (uuid_hex description task_type : string) (required : list string)
    (priority : Z) (parent_agent_id : option string) (w : World) :
  required <> [] ->
  let now := clock w (tick w) in
  let candidates := eligible (Some required) now (active_agents w) in
  (forall c,
      In c candidates <->
      exists a, In a (active_agents w) /\
                c = (ag_agent_id a, ag_workload a) /\
                now - ag_last_heartbeat a < 60 /\
                Py.all_in required (agent_caps (ag_capabilities a)) = true) /\
  (exists infos n,
      HeartbeatMonitor.get_active_agents 60 (Some required) w
      = Some (infos, set_tick n w) /\
      Permutation (map fst candidates)
                  (map HeartbeatMonitor.ai_agent_id infos)) /\
  (existsb (task_is ("task-" ++ uuid_hex)) (delegated_tasks w) = false ->
   exists d w',
     delegate_task uuid_hex description task_type (Some required) priority
                   parent_agent_id w = Some (d, w') /\
     match candidates with
     | [] =>
         dg_assigned_agent d = None /\ active_agents w' = active_agents w
     | (chosen, load) :: _ =>
         dg_assigned_agent d = Some chosen /\
         Forall (fun c => load <= snd c) candidates /\
         active_agents w' =
           update_where (agent_is chosen) (bump_workload 1) (active_agents w) /\
         workload_of chosen w' =
           option_map (fun l => l + 1) (workload_of chosen w)
     end).
Proof.
  intros Hne now candidates. split; [|split].
  - intros c. now apply eligible_iff.
  - destruct (DetectorFacts.get_active_agents_spec 60 (Some required) w)
      as [infos [n [E HF]]].
    exists infos, n. split; [exact E|].
    assert (map HeartbeatMonitor.ai_agent_id infos =
            map ag_agent_id
                (filter (HeartbeatMonitor.passes (Some required))
                   (filter (HeartbeatMonitor.recent (clock w (tick w) - 60))
                           (active_agents w)))) as ->.
    { clear E. induction HF as [|a i l l' [Hid _] _ IH]; simpl; congruence. }
    unfold candidates, eligible.
    assert (Py.truthy_list (Some required) = true) as Ht
        by (destruct required; [congruence|reflexivity]).
    rewrite Ht. unfold capable_agents, select_agents.
    rewrite map_map. cbn [fst]. apply Permutation_map.
    rewrite (filter_ext (HeartbeatMonitor.passes (Some required))
               (fun a => Py.all_in required (agent_caps (ag_capabilities a))))
      by (intros a; unfold HeartbeatMonitor.passes; now rewrite Ht).
    apply Permutation_filter. apply order_by_workload_perm.
  - intros Hfresh. rewrite delegate_task_eq, Hfresh.
    eexists _, _. split; [reflexivity|]. fold now. fold candidates.
    pose proof (eligible_sorted (Some required) now (active_agents w)) as Hs.
    fold candidates in Hs.
    destruct candidates as [|[chosen load] rest]; cbn [hd_error option_map fst].
    + split; reflexivity.
    + split; [reflexivity|]. split; [|split; [reflexivity|]].
      * inversion Hs as [|? ? _ Hall]; subst.
        constructor; [simpl; lia | exact Hall].
      * rewrite (workload_of_bump (Some chosen) 1 chosen w) by reflexivity.
        now rewrite String.eqb_refl.
Qed.

(** Among the three agents of the demonstration the security task goes to
    the security agent, whose workload becomes 1. *)
Lemma delegate_chooses_least_loaded_live_agent_witness :
  exists d w',
    delegate_task "0123456789ab" "Audit" "security-audit" (Some ["security"])
                  5 None Scenario.three_agents = Some (d, w') /\
    dg_assigned_agent d = Some "security-agent-01" /\
    workload_of "security-agent-01" w' = Some 1.
Proof.
  destruct (delegate_chooses_least_loaded_live_agent
              "0123456789ab" "Audit" "security-audit" ["security"] 5 None
              Scenario.three_agents ltac:(discriminate))
    as [_ [_ H]].
  destruct (H eq_refl) as [d [w' [E [Hd [_ [_ Hw]]]]]].
  exists d, w'. split; [exact E|]. split; [exact Hd|exact Hw].
Defined.

(** C3 (the code on an assigned task).  The agent to which [delegate_task]
    assigned the task claims it: the task goes from pending to claimed and
    [claimed_at] is recorded, yet [claim_task] returns [False], because the
    count it reports is that of the second update, which only touches
    unassigned tasks. *)
Theorem claim_by_assignee_returns_false :
  let w := Scenario.audit_pending in
  map (fun t => (tk_task_id t, tk_status t, tk_assigned_agent_id t,
                 tk_claimed_at t))
      (delegated_tasks w)
  = [("task-0123456789ab", "pending", Some "security-agent-01", None)] /\
  option_map
    (fun r => (fst r,
               map (fun t => (tk_task_id t, tk_status t,
                              tk_assigned_agent_id t, tk_claimed_at t))
                   (delegated_tasks (snd r))))
    (claim_task "task-0123456789ab" "security-agent-01" w)
  = Some (false,
          [("task-0123456789ab", "claimed", Some "security-agent-01",
            Some 1)]).
Proof. split; reflexivity. Qed.

(** *** Workloads along an execution *)

Lemma perform_keeps_nonneg (c : Call) (w w' : World) :
  is_complete c = false -> perform c w = Some w' ->
  workloads_nonneg w -> workloads_nonneg w'.
Proof.
  unfold workloads_nonneg.
  destruct c as [agent_id capabilities status|agent_id status|agent_id
                |timeout_seconds|uuid_hex description task_type required
                 priority parent|task_id agent_id|task_id result success];
    cbn [perform is_complete]; intros Hc H Hw; try discriminate.
  - simpl in H. injection H as <-. simpl.
    unfold HeartbeatMonitor.insert_or_replace, delete_where.
    apply Forall_app. split.
    + apply Forall_forall. intros a Ha. apply filter_In in Ha.
      rewrite Forall_forall in Hw. now apply Hw.
    + repeat constructor. simpl. lia.
  - simpl in H. injection H as <-. simpl. unfold update_where.
    apply Forall_forall. intros a Ha. apply in_map_iff in Ha.
    destruct Ha as [b [<- Hb]]. rewrite Forall_forall in Hw.
    specialize (Hw b Hb).
    destruct (HeartbeatMonitor.has_id agent_id b); [|exact Hw].
    destruct status as [s|]; [destruct (Py.truthy s)|]; exact Hw.
  - simpl in H. injection H as <-. simpl. unfold delete_where.
    apply Forall_forall. intros a Ha. apply filter_In in Ha.
    rewrite Forall_forall in Hw. now apply Hw.
  - simpl in H. injection H as <-. simpl. unfold delete_where.
    apply Forall_forall. intros a Ha. apply filter_In in Ha.
    rewrite Forall_forall in Hw. now apply Hw.
  - rewrite delegate_task_eq in H.
    destruct (existsb _ (delegated_tasks w)); [discriminate|].
    injection H as <-. cbn [active_agents].
    destruct (option_map fst _) as [chosen|]; [|exact Hw].
    unfold update_where. apply Forall_forall. intros a Ha.
    apply in_map_iff in Ha. destruct Ha as [b [<- Hb]].
    rewrite Forall_forall in Hw. specialize (Hw b Hb).
    destruct (agent_is chosen b); simpl; lia.
  - rewrite claim_task_eq in H. injection H as <-. exact Hw.
Qed.

Lemma run_keeps_nonneg (calls : list Call) (w w' : World) :
  forallb (fun c => negb (is_complete c)) calls = true ->
  run calls w = Some w' ->
  workloads_nonneg w -> workloads_nonneg w'.
Proof.
  revert w. induction calls as [|c calls IH]; simpl; intros w Hc H Hw.
  - now injection H as <-.
  - apply andb_true_iff in Hc. destruct Hc as [Hc Hcs].
    destruct (perform c w) as [w1|] eqn:E; [|discriminate].
    apply (IH w1 Hcs H).
    eapply perform_keeps_nonneg; eauto.
    now destruct (is_complete c).
Qed.

(** C4 (as stated, refuted).  One process delegates the security task and
    calls [complete_task] on it twice: the assignee, whose workload was 0,
    ends at -1. *)
Lemma second_complete_makes_workload_negative :
  workloads_nonneg Scenario.three_agents /\
  exists w,
    run [Scenario.security_audit;
         Complete "task-0123456789ab" "done" true;
         Complete "task-0123456789ab" "done" true]
        Scenario.three_agents = Some w /\
    workload_of "security-agent-01" w = Some (-1) /\
    ~ workloads_nonneg w.
Proof.
  split.
  - repeat constructor; simpl; lia.
  - eexists. split; [reflexivity|]. split; [reflexivity|].
    intros H. inversion H as [|? ? Hneg _]. simpl in Hneg. lia.
Qed.

(** C4 (amended).  From a store without negative workloads, calls of
    [register_agent], [send_heartbeat], [unregister_agent],
    [cleanup_stale_agents], [delegate_task] and [claim_task] never produce
    one.  [complete_task] takes one off the workload of the agent assigned
    to the task at every call, whatever the status of the task and whatever
    the workload, and leaves the other workloads alone. *)
Theorem workload_nonneg_until_complete (w : World) :
  workloads_nonneg w ->
  (forall calls w',
      forallb (fun c => negb (is_complete c)) calls = true ->
      run calls w = Some w' -> workloads_nonneg w') /\
  (forall task_id result success,
      exists b w',
        complete_task task_id result success w = Some (b, w') /\
        forall agent_id,
          workload_of agent_id w' =
          match assigned_agent_of task_id (delegated_tasks w) with
          | Some assignee =>
              if String.eqb agent_id assignee
              then option_map (fun load => load - 1) (workload_of agent_id w)
              else workload_of agent_id w
          | None => workload_of agent_id w
          end).
Proof.
  intros Hw. split.
  - intros calls w' Hc H. eapply run_keeps_nonneg; eauto.
  - intros task_id result success. rewrite complete_task_eq.
    eexists _, _. split; [reflexivity|]. intros agent_id.
    rewrite (workload_of_bump
               (assigned_agent_of task_id (delegated_tasks w)) (-1)
               agent_id w) by reflexivity.
    destruct (assigned_agent_of task_id (delegated_tasks w)) as [chosen|];
      [|reflexivity].
    destruct (String.eqb agent_id chosen); reflexivity.
Qed.

(** No workload is negative once the security task has been delegated. *)
Lemma workload_nonneg_until_complete_witness :
  workloads_nonneg Scenario.audit_pending.
Proof.
  refine (proj1 (workload_nonneg_until_complete Scenario.three_agents _)
                [Scenario.security_audit] Scenario.audit_pending _ _).
  - repeat constructor; simpl; lia.
  - reflexivity.
  - reflexivity.
Defined.

(** *** Delegation without and with an assignee *)

(** C8 (as stated, refuted).  A monitor configured with a timeout of 15
    seconds lists no live agent able to do security work, yet
    [delegate_task] assigns the task to the agent last heard of 30 seconds
    ago, and [get_task_status] shows that assignee.  And a call without
    required capabilities files nothing when the identifier it draws is
    already in use: the insertion raises. *)
Lemma delegate_assigns_agent_no_monitor_lists :
  option_map fst
             (HeartbeatMonitor.get_active_agents 15 (Some ["security"])
                                                 Scenario.quiet_agent)
  = Some [] /\
  option_map
    (fun r => (dg_assigned_agent (fst r), dg_status (fst r),
               option_map (fun q => option_map ts_assigned_agent_id (fst q))
                          (get_task_status (dg_task_id (fst r)) (snd r))))
    (delegate_task "0123456789ab" "Audit" "security-audit"
                   (Some ["security"]) 5 None Scenario.quiet_agent)
  = Some (Some "security-agent-01", "pending",
          Some (Some (Some "security-agent-01"))) /\
  delegate_task "0123456789ab" "Audit again" "security-audit" None 5 None
                Scenario.audit_pending = None.
Proof. repeat split. Qed.

(** C8 (amended).  When the identifier drawn for the task is not in use
    and either no capability is required or no agent heard of in the last
    60 seconds, the window fixed inside [delegate_task], has all the
    required ones, [delegate_task] files the task unassigned and pending,
    returns these values with the new identifier, leaves the agents alone,
    and [get_task_status] on that identifier reports the same fields. *)
Theorem delegate_without_candidate_is_pending
    (uuid_hex description task_type : string)
    (required_capabilities : option (list string)) (priority : Z)
    (parent_agent_id : option string) (w : World) :
  existsb (task_is ("task-" ++ uuid_hex)) (delegated_tasks w) = false ->
  (Py.truthy_list required_capabilities = false \/
   exists required,
     required_capabilities = Some required /\
     forall a, In a (active_agents w) ->
               clock w (tick w) - ag_last_heartbeat a < 60 ->
               Py.all_in required (agent_caps (ag_capabilities a)) = false) ->
  exists d w' st,
    delegate_task uuid_hex description task_type required_capabilities
                  priority parent_agent_id w = Some (d, w') /\
    dg_task_id d = "task-" ++ uuid_hex /\
    dg_assigned_agent d = None /\
    dg_status d = "pending" /\
    active_agents w' = active_agents w /\
    get_task_status (dg_task_id d) w' = Some (Some st, w') /\
    ts_task_id st = dg_task_id d /\
    ts_assigned_agent_id st = None /\
    ts_status st = "pending" /\
    ts_task_type st = task_type /\
    ts_description st = description /\
    ts_priority st = priority /\
    ts_parent_agent_id st = parent_agent_id /\
    ts_claimed_at st = None /\
    ts_completed_at st = None /\
    ts_result st = None.
Proof.
  intros Hfresh Hnone.
  assert (eligible required_capabilities (clock w (tick w)) (active_agents w)
          = []) as He.
  { destruct Hnone as [Hf|[required [-> Hall]]].
    - unfold eligible. destruct required_capabilities; [|reflexivity].
      now rewrite Hf.
    - destruct required as [|cap required]; [reflexivity|].
      destruct (eligible (Some (cap :: required)) (clock w (tick w))
                         (active_agents w)) as [|c l] eqn:E; [reflexivity|].
      assert (In c (eligible (Some (cap :: required)) (clock w (tick w))
                             (active_agents w))) as Hin
          by (rewrite E; now left).
      apply eligible_iff in Hin; [|discriminate].
      destruct Hin as [a [Hin [_ [Hlive Hcap]]]].
      rewrite (Hall a Hin Hlive) in Hcap. discriminate. }
  rewrite delegate_task_eq, Hfresh, He. cbn [hd_error option_map].
  eexists _, _, _. split; [reflexivity|]. cbn [dg_task_id dg_assigned_agent
                                              dg_status active_agents].
  do 4 (split; [reflexivity|]).
  unfold get_task_status. cbn [delegated_tasks].
  rewrite filter_fresh; [|exact Hfresh|apply String.eqb_refl].
  cbn [fetchone hd_error]. split; [reflexivity|].
  repeat split.
Qed.

(** None of the three agents of the demonstration knows kubernetes. *)
Lemma delegate_without_candidate_is_pending_witness :
  exists d w' st,
    delegate_task "0123456789ab" "Tune the cluster" "ops" (Some ["kubernetes"])
                  5 None Scenario.three_agents = Some (d, w') /\
    dg_assigned_agent d = None /\
    dg_status d = "pending" /\
    get_task_status (dg_task_id d) w' = Some (Some st, w') /\
    ts_assigned_agent_id st = None /\
    ts_status st = "pending".
Proof.
  destruct (delegate_without_candidate_is_pending
              "0123456789ab" "Tune the cluster" "ops" (Some ["kubernetes"])
              5 None Scenario.three_agents eq_refl)
    as [d [w' [st [E [_ [Hd [Hs [_ [Eq [_ [Ha [Hp _]]]]]]]]]]]].
  - right. exists ["kubernetes"]. split; [reflexivity|].
    intros a [<-|[<-|[<-|[]]]] _; reflexivity.
  - exists d, w', st. repeat split; assumption.
Defined.

(** C9 (as stated, refuted).  For a monitor configured with a timeout of
    15 seconds alpha is the only live general agent, yet [delegate_task]
    gives the task to beta, heard of 30 seconds ago and less loaded: the
    workload of alpha stays at 5. *)
Lemma delegate_passes_over_only_live_agent :
  let w := Scenario.alpha_and_beta in
  option_map (fun r => map HeartbeatMonitor.ai_agent_id (fst r))
             (HeartbeatMonitor.get_active_agents 15 (Some ["general"]) w)
  = Some ["alpha"] /\
  workload_of "alpha" w = Some 5 /\
  option_map (fun r => (dg_assigned_agent (fst r),
                        workload_of "alpha" (snd r),
                        workload_of "beta" (snd r)))
             (delegate_task "0123456789ab" "Sort the mail" "sorting"
                            (Some ["general"]) 5 None w)
  = Some (Some "beta", Some 5, Some 1).
Proof. repeat split. Qed.

(** C9 (amended).  When the identifier drawn for the task is not in use and
    exactly one agent is eligible for a delegation, that is, heard of in the
    last 60 seconds, the window fixed inside [delegate_task], and having
    all the required capabilities, the task is assigned to it and its
    workload goes up by one; completing the returned task brings that
    workload back to what it was, and with it the whole table of agents. *)
Theorem delegate_then_complete_restores_workload
    (uuid_hex description task_type : string) (required : list string)
    (priority : Z) (parent_agent_id : option string)
    (result : string) (success : bool) (agent_id : string) (w : World) :
  required <> [] ->
  existsb (task_is ("task-" ++ uuid_hex)) (delegated_tasks w) = false ->
  map fst (eligible (Some required) (clock w (tick w)) (active_agents w))
  = [agent_id] ->
  exists d w1 w2 load,
    delegate_task uuid_hex description task_type (Some required) priority
                  parent_agent_id w = Some (d, w1) /\
    dg_assigned_agent d = Some agent_id /\
    workload_of agent_id w = Some load /\
    workload_of agent_id w1 = Some (load + 1) /\
    complete_task (dg_task_id d) result success w1 = Some (true, w2) /\
    workload_of agent_id w2 = Some load /\
    active_agents w2 = active_agents w.
Proof.
  intros Hne Hfresh Hone.
  destruct (eligible (Some required) (clock w (tick w)) (active_agents w))
    as [|[chosen load] rest] eqn:He; [discriminate|].
  destruct rest; [|discriminate]. injection Hone as ->.
  assert (In (agent_id, load)
             (eligible (Some required) (clock w (tick w)) (active_agents w)))
    as Hin by (rewrite He; now left).
  apply eligible_iff in Hin; [|exact Hne].
  destruct Hin as [a [Hin [Hc _]]]. injection Hc as Hid Hload.
  assert (exists load0, workload_of agent_id w = Some load0) as [load0 Hw].
  { unfold workload_of.
    destruct (filter (agent_is agent_id) (active_agents w)) as [|b l] eqn:Ef.
    - exfalso.
      assert (In a (filter (agent_is agent_id) (active_agents w))) as Habs.
      { apply filter_In. split; [exact Hin|]. unfold agent_is.
        rewrite <- Hid. apply String.eqb_refl. }
      rewrite Ef in Habs. exact Habs.
    - eexists. reflexivity. }
  rewrite delegate_task_eq, Hfresh, He. cbn [hd_error option_map fst].
  eexists _, _, _, load0. split; [reflexivity|].
  cbn [dg_assigned_agent dg_task_id].
  split; [reflexivity|]. split; [exact Hw|]. split.
  { rewrite (workload_of_bump (Some agent_id) 1 agent_id w) by reflexivity.
    now rewrite String.eqb_refl, Hw. }
  rewrite complete_task_eq. cbn [delegated_tasks active_agents].
  assert (assigned_agent_of ("task-" ++ uuid_hex)
            (delegated_tasks w ++
             [mkTask ("task-" ++ uuid_hex) task_type description
                     (caps_column (Some required)) priority "pending"
                     parent_agent_id (Some agent_id) (clock w (tick w))
                     None None None 1]) = Some agent_id) as Hwho.
  { unfold assigned_agent_of.
    rewrite filter_fresh; [reflexivity|exact Hfresh|apply String.eqb_refl]. }
  rewrite Hwho.
  assert (rowcount (task_is ("task-" ++ uuid_hex))
            (delegated_tasks w ++
             [mkTask ("task-" ++ uuid_hex) task_type description
                     (caps_column (Some required)) priority "pending"
                     parent_agent_id (Some agent_id) (clock w (tick w))
                     None None None 1]) = 1) as Hcount.
  { unfold rowcount.
    rewrite filter_fresh; [reflexivity|exact Hfresh|apply String.eqb_refl]. }
  rewrite Hcount.
  assert (update_where (agent_matches (Some agent_id)) (bump_workload (-1))
            (update_where (agent_is agent_id) (bump_workload 1)
                          (active_agents w)) = active_agents w) as Hback.
  { unfold update_where. rewrite map_map.
    rewrite <- (map_id (active_agents w)) at 2.
    apply map_ext. intros [id caps st hb reg wl].
    unfold agent_matches.
    destruct (agent_is agent_id (mkAgent id caps st hb reg wl)) eqn:Ea.
    - unfold bump_workload at 2. unfold agent_is in *. simpl in *.
      rewrite Ea. unfold bump_workload. simpl. f_equal. lia.
    - now rewrite Ea. }
  split; [reflexivity|]. split.
  - unfold workload_of in *. cbn [active_agents]. rewrite Hback. exact Hw.
  - cbn [active_agents]. exact Hback.
Qed.

(** The docker task of the demonstration, delegated and completed. *)
Lemma delegate_then_complete_restores_workload_witness :
  exists d w1 w2,
    delegate_task "0123456789ab" "Build and push Docker image" "docker-build"
                  (Some ["docker"]) 3 None Scenario.three_agents
    = Some (d, w1) /\
    dg_assigned_agent d = Some "docker-agent-01" /\
    workload_of "docker-agent-01" w1 = Some 1 /\
    complete_task (dg_task_id d) "pushed" true w1 = Some (true, w2) /\
    workload_of "docker-agent-01" w2 = Some 0.
Proof.
  destruct (delegate_then_complete_restores_workload
              "0123456789ab" "Build and push Docker image" "docker-build"
              ["docker"] 3 None "pushed" true "docker-agent-01"
              Scenario.three_agents ltac:(discriminate) eq_refl eq_refl)
    as [d [w1 [w2 [load [E [Hd [Hw [Hw1 [Ec [Hw2 _]]]]]]]]]].
  injection Hw as <-.
  exists d, w1, w2. repeat split; assumption.
Defined.
End SchedulerFacts.
Module LockExtras.
Import FileLockCoordinator LockFacts.

(** The row that a successful [acquire_lock] inserts. *)
Lemma acquire_loop_outcome (fuel : nat) (start_time : Z)
    (agent_id file_path operation : string) (timeout_seconds : Z) (w : World) :
  exists r w',
    acquire_loop fuel start_time agent_id file_path operation timeout_seconds w
    = Some (r, w') /\
    clock w' = clock w /\ (tick w <= tick w')%nat /\
    active_agents w' = active_agents w /\
    delegated_tasks w' = delegated_tasks w /\
    match r with
    | Some true =>
        exists i,
          (tick w < i)%nat /\ tick w' = S (S i) /\
          rows_for file_path (sweep_expired (clock w i) (file_locks w)) = [] /\
          file_locks w' =
            (sweep_expired (clock w i) (file_locks w)
             ++ [mkFileLock file_path agent_id operation (clock w (S i))
                            (clock w (S i) + lock_expiration)])%list
    | _ => file_locks w' = file_locks w
    end.
Proof.
  revert w. induction fuel as [|fuel IH]; intros w.
  - exists None, w. cbn. repeat split; auto.
  - cbn [acquire_loop]. unfold bind at 1. cbn [time_time].
    destruct (clock w (tick w) - start_time <? timeout_seconds).
    + unfold bind at 1. rewrite acquire_poll_eq.
      cbn [clock tick file_locks set_tick].
      destruct (rows_for file_path
                  (sweep_expired (clock w (S (tick w))) (file_locks w)))
        eqn:Ef.
      * eexists (Some true), _. unfold ret. split; [reflexivity|].
        cbn. repeat split; auto.
        exists (S (tick w)). repeat split; auto.
      * unfold bind at 1, time_sleep, ret.
        match goal with |- context [acquire_loop _ _ _ _ _ _ ?w1] =>
          destruct (IH w1) as [r [w' [E [Hc [Ht [Ha [Hd Hr]]]]]]] end.
        exists r, w'. split; [exact E|]. cbn in Hc, Ht, Ha, Hd, Hr.
        repeat split; auto; try lia.
        destruct r as [[|]|]; auto.
        destruct Hr as [i [Hi [Hti [Hnone Hrows]]]].
        exists i. repeat split; auto. lia.
    + exists (Some false), (set_tick (S (tick w)) w). unfold ret.
      cbn. repeat split; auto.
Qed.

(** [acquire_lock] either adds the caller's row to the swept table or
    leaves the table alone. *)
Lemma acquire_lock_all_or_nothing_aux (fuel : nat)
    (agent_id file_path operation : string) (timeout_seconds : Z) (w : World) :
  exists r w',
    acquire_lock fuel agent_id file_path operation timeout_seconds w
    = Some (r, w') /\
    match r with
    | Some true =>
        exists swept_at locked_at,
          rows_for file_path (sweep_expired swept_at (file_locks w)) = [] /\
          file_locks w' =
            (sweep_expired swept_at (file_locks w)
             ++ [mkFileLock file_path agent_id operation locked_at
                            (locked_at + lock_expiration)])%list
    | _ => file_locks w' = file_locks w
    end.
Proof.
  unfold acquire_lock. unfold bind at 1. cbn [time_time].
  destruct (acquire_loop_outcome fuel (clock w (tick w)) agent_id file_path
              operation timeout_seconds (set_tick (S (tick w)) w))
    as [r [w' [E [_ [_ [_ [_ Hr]]]]]]].
  exists r, w'. split; [exact E|].
  destruct r as [[|]|]; try exact Hr.
  destruct Hr as [i [_ [_ [Hnone Hrows]]]].
  exists (clock w i), (clock w (S i)). split; [exact Hnone|exact Hrows].
Qed.


(** How the loop fares against a lock that stays valid. *)
Lemma acquire_loop_blocked (fuel : nat) (start_time : Z)
    (agent_id file_path operation : string) (timeout_seconds : Z)
    (holder : FileLock) (w : World) :
  In holder (file_locks w) -> fl_file_path holder = file_path ->
  (forall i, (tick w <= i < tick w + 2 * fuel)%nat ->
             clock w i <= fl_expires_at holder) ->
  exists r w',
    acquire_loop fuel start_time agent_id file_path operation timeout_seconds w
    = Some (r, w') /\ r <> Some true /\ file_locks w' = file_locks w.
Proof.
  revert w. induction fuel as [|fuel IH]; intros w Hin Hpath Hvalid.
  - exists None, w. repeat split. discriminate.
  - cbn [acquire_loop]. unfold bind at 1. cbn [time_time].
    destruct (clock w (tick w) - start_time <? timeout_seconds).
    + unfold bind at 1. rewrite acquire_poll_eq.
      cbn [clock tick file_locks set_tick].
      assert (In holder
                 (rows_for file_path
                    (sweep_expired (clock w (S (tick w))) (file_locks w))))
        as Hstill.
      { unfold rows_for, sweep_expired, delete_where.
        apply filter_In. split; [apply filter_In; split; [exact Hin|]|].
        - unfold expired. apply negb_true_iff, Z.ltb_ge. apply Hvalid. lia.
        - unfold on_path. rewrite Hpath. apply String.eqb_refl. }
      destruct (rows_for file_path _) as [|r0 l]; [destruct Hstill|].
      unfold bind at 1, time_sleep, ret.
      match goal with |- context [acquire_loop _ _ _ _ _ _ ?w1] =>
        destruct (IH w1) as [r [w' [E [Hr Hl]]]] end.
      * exact Hin.
      * exact Hpath.
      * intros i Hi. apply Hvalid. cbn in Hi. lia.
      * exists r, w'. repeat split; auto.
    + exists (Some false), (set_tick (S (tick w)) w).
      repeat split. discriminate.
Qed.

(** X2.  While the row of a resource has not expired at any reading of the
    clock that the call makes in [fuel] passes, [acquire_lock] on that
    resource does not succeed, whoever the caller is, the holder included:
    the call returns [False] or is still polling, and the lock table is
    unchanged. *)
Theorem valid_lock_excludes_every_caller (fuel : nat)
    (agent_id file_path operation : string) (timeout_seconds : Z)
    (holder : FileLock) (w : World) :
  In holder (file_locks w) -> fl_file_path holder = file_path ->
  (forall i, (tick w <= i <= tick w + 2 * fuel)%nat ->
             clock w i <= fl_expires_at holder) ->
  exists r w',
    acquire_lock fuel agent_id file_path operation timeout_seconds w
    = Some (r, w') /\ r <> Some true /\ file_locks w' = file_locks w.
Proof.
  intros Hin Hpath Hvalid.
  unfold acquire_lock. unfold bind at 1. cbn [time_time].
  apply (acquire_loop_blocked fuel _ agent_id file_path operation
           timeout_seconds holder (set_tick (S (tick w)) w)).
  - exact Hin.
  - exact Hpath.
  - intros i Hi. apply Hvalid. cbn in Hi. lia.
Qed.

(** The holder itself is turned away while its lease runs. *)
Lemma valid_lock_excludes_every_caller_witness :
  exists r w',
    acquire_lock 3 "agent-a" "f" "write" 2
                 (mkWorld Scenario.seconds 0
                          [mkFileLock "f" "agent-a" "write" 0 300] [] [])
    = Some (r, w') /\ r <> Some true /\
    file_locks w' = [mkFileLock "f" "agent-a" "write" 0 300].
Proof.
  apply (valid_lock_excludes_every_caller 3 "agent-a" "f" "write" 2
           (mkFileLock "f" "agent-a" "write" 0 300)
           (mkWorld Scenario.seconds 0
                    [mkFileLock "f" "agent-a" "write" 0 300] [] [])).
  - now left.
  - reflexivity.
  - intros i Hi. cbn in *. unfold Scenario.seconds. lia.
Defined.

(** The loop answers once the clock has reached the deadline. *)
Lemma acquire_loop_answers (fuel : nat) (start_time : Z)
    (agent_id file_path operation : string) (timeout_seconds : Z)
    (deadline : nat) (w : World) :
  monotone (clock w) ->
  timeout_seconds <= clock w deadline - start_time ->
  (1 <= fuel)%nat -> (deadline + 2 <= tick w + 2 * fuel)%nat ->
  exists b w',
    acquire_loop fuel start_time agent_id file_path operation timeout_seconds w
    = Some (Some b, w').
Proof.
  revert w.
  induction fuel as [|fuel IH]; intros w Hmono Hdead Hpos Hfuel; [lia|].
  cbn [acquire_loop]. unfold bind at 1. cbn [time_time].
  destruct (Z.ltb_spec (clock w (tick w) - start_time) timeout_seconds)
    as [Hlt|Hge].
  - unfold bind at 1. rewrite acquire_poll_eq.
    destruct (rows_for file_path _).
    + eexists true, _. reflexivity.
    + unfold bind at 1, time_sleep, ret.
      assert (tick w < deadline)%nat as Hearly.
      { destruct (Nat.lt_ge_cases (tick w) deadline) as [H|H]; [exact H|].
        specialize (Hmono deadline (tick w) H). lia. }
      apply IH; cbn [clock tick set_tick]; auto; lia.
  - eexists false, _. reflexivity.
Qed.

(** X3.  [acquire_lock] does not wait for ever: when the clock does not run
    backwards and some reading is at least [timeout_seconds] after the
    first one, the call returns [True] or [False] within that many polling
    passes. *)
Theorem acquire_lock_returns (agent_id file_path operation : string)
    (timeout_seconds : Z) (deadline : nat) (w : World) :
  monotone (clock w) ->
  timeout_seconds <= clock w deadline - clock w (tick w) ->
  exists b w',
    acquire_lock (S deadline) agent_id file_path operation timeout_seconds w
    = Some (Some b, w').
Proof.
  intros Hmono Hdead.
  unfold acquire_lock. unfold bind at 1. cbn [time_time].
  apply (acquire_loop_answers (S deadline) _ agent_id file_path operation
           timeout_seconds deadline); cbn [clock tick set_tick]; auto; lia.
Qed.

(** Against a lock held for 300 seconds and a patience of 2, the second
    test of the loop gives up. *)
Lemma acquire_lock_returns_witness :
  exists b w',
    acquire_lock 3 "agent-b" "f" "write" 2
                 (mkWorld Scenario.seconds 0
                          [mkFileLock "f" "agent-a" "write" 0 300] [] [])
    = Some (Some b, w').
Proof.
  apply (acquire_lock_returns "agent-b" "f" "write" 2 2
           (mkWorld Scenario.seconds 0
                    [mkFileLock "f" "agent-a" "write" 0 300] [] [])).
  - intros i j Hij. cbn. unfold Scenario.seconds. lia.
  - vm_compute. discriminate.
Defined.

(** X4.  Every row that [acquire_lock] writes expires 300 seconds after it
    was taken, and nothing else changes a row: a lock table whose rows all
    have that lease keeps the property along any interleaving of the
    actions on it. *)
Theorem lease_is_five_minutes (w w' : World) :
  Forall (fun r => fl_expires_at r = fl_lock_time r + 300) (file_locks w) ->
  steps w w' ->
  Forall (fun r => fl_expires_at r = fl_lock_time r + 300) (file_locks w').
Proof.
  intros Hw Hs. induction Hs as [|w1 w2 w3 H12 _ IH]; [exact Hw|].
  apply IH. clear IH.
  assert (forall p rows,
             Forall (fun r => fl_expires_at r = fl_lock_time r + 300) rows ->
             Forall (fun r => fl_expires_at r = fl_lock_time r + 300)
                    (filter p rows)) as Hfilter.
  { intros p rows H. apply Forall_forall. intros r Hr.
    apply filter_In in Hr. rewrite Forall_forall in H. now apply H. }
  destruct H12 as [w0 t w1 H|a f op w0 b w1 H|fuel a f op tmo w0 r w1 H
                  |a f w0 b w1 H|w0 l w1 H].
  - inversion H; subst; exact Hw.
  - rewrite acquire_poll_eq in H.
    destruct (rows_for f _); inversion H; subst; cbn [file_locks]; auto.
    apply Forall_app. split; [now apply Hfilter|]. repeat constructor.
  - destruct (acquire_lock_all_or_nothing_aux fuel a f op tmo w0)
      as [r' [w' [E Hr]]].
    rewrite E in H. inversion H; subst.
    destruct r as [[|]|]; try (rewrite Hr; exact Hw).
    destruct Hr as [t [n [_ ->]]].
    apply Forall_app. split; [now apply Hfilter|]. repeat constructor.
  - inversion H; subst. cbn [file_locks set_file_locks]. now apply Hfilter.
  - unfold get_all_locks in H. unfold bind at 1 in H. simpl in H.
    unfold bind at 1 in H. simpl in H. unfold bind at 1 in H. simpl in H.
    match type of H with mapM ?f ?l ?w = _ =>
      destruct (mapM_clock_only _ _
                  (fun row now =>
                     mkLockInfo (fl_file_path row) (fl_agent_id row)
                                (fl_operation row) (fl_lock_time row)
                                (fl_expires_at row) (now - fl_lock_time row))
                  l w) as [ys [n E]] end.
    rewrite E in H. inversion H; subst; simpl. now apply Hfilter.
Qed.

(** The lease of the rows left by a contended acquisition. *)
Lemma lease_is_five_minutes_witness :
  Forall (fun r => fl_expires_at r = fl_lock_time r + 300)
         (file_locks (Scenario.world_after
                        (acquire_lock 2 "agent-a" "f" "write" 5)
                        (fresh_world Scenario.seconds))).
Proof.
  apply (lease_is_five_minutes (fresh_world Scenario.seconds)).
  - constructor.
  - eapply steps_cons;
      [eapply (@step_acquire 2 "agent-a" "f" "write" 5); reflexivity|].
    apply steps_refl.
Defined.

(** X5.  After [acquire_lock] has returned [True], [release_lock] by the
    same agent returns [True] and leaves no row for the resource, the rows
    of the other resources being kept; a second [release_lock] returns
    [False] and changes nothing. *)
Theorem release_undoes_acquire (fuel : nat)
    (agent_id file_path operation : string) (timeout_seconds : Z)
    (w w1 : World) :
  acquire_lock fuel agent_id file_path operation timeout_seconds w
  = Some (Some true, w1) ->
  exists w2,
    release_lock agent_id file_path w1 = Some (true, w2) /\
    rows_for file_path (file_locks w2) = [] /\
    (forall other, other <> file_path ->
                   rows_for other (file_locks w2)
                   = rows_for other (file_locks w1)) /\
    release_lock agent_id file_path w2 = Some (false, w2).
Proof.
  intros Hacq.
  destruct (acquire_lock_all_or_nothing_aux fuel agent_id file_path operation
              timeout_seconds w) as [r [w' [E Hr]]].
  rewrite E in Hacq. injection Hacq as -> ->.
  destruct Hr as [t [n [Hnone Hrows]]].
  set (swept := sweep_expired t (file_locks w)) in *.
  assert (forall rows, rows_for file_path rows = [] ->
                       filter (held_by file_path agent_id) rows = [] /\
                       delete_where (held_by file_path agent_id) rows = rows)
    as Hfree.
  { unfold rows_for, delete_where.
    induction rows as [|r rows IH]; cbn [filter]; intros H; [auto|].
    destruct (on_path file_path r) eqn:Ep; [discriminate|].
    assert (held_by file_path agent_id r = false) as Hh
        by (unfold held_by; unfold on_path in Ep; now rewrite Ep).
    rewrite Hh. cbn [negb]. destruct (IH H) as [H1 H2].
    split; [exact H1|now rewrite H2]. }
  destruct (Hfree swept Hnone) as [Hnone' Hkeep].
  assert (delete_where (held_by file_path agent_id) (file_locks w1) = swept)
    as Hafter.
  { rewrite Hrows. unfold delete_where. rewrite filter_app.
    fold (delete_where (held_by file_path agent_id) swept). rewrite Hkeep.
    simpl. unfold held_by. simpl. rewrite !String.eqb_refl. simpl.
    apply app_nil_r. }
  exists (set_file_locks swept w1).
  split; [|split; [|split]].
  - unfold release_lock. rewrite Hafter. f_equal. f_equal.
    unfold rowcount. rewrite Hrows, filter_app, Hnone'. simpl.
    unfold held_by. simpl. now rewrite !String.eqb_refl.
  - exact Hnone.
  - intros other Hother. cbn [file_locks set_file_locks].
    rewrite Hrows. unfold rows_for. rewrite filter_app. cbn [filter].
    assert (on_path other
              (mkFileLock file_path agent_id operation n
                          (n + lock_expiration)) = false) as ->.
    { unfold on_path. cbn [fl_file_path]. apply String.eqb_neq.
      congruence. }
    symmetry. apply app_nil_r.
  - unfold release_lock. cbn [file_locks set_file_locks].
    unfold rowcount. rewrite Hnone', Hkeep. reflexivity.
Qed.

(** Agent a takes the lock on f in an empty store and gives it back. *)
Lemma release_undoes_acquire_witness :
  exists w1 w2,
    acquire_lock 2 "agent-a" "f" "write" 5 (fresh_world Scenario.seconds)
    = Some (Some true, w1) /\
    release_lock "agent-a" "f" w1 = Some (true, w2) /\
    rows_for "f" (file_locks w2) = [].
Proof.
  eexists.
  destruct (release_undoes_acquire 2 "agent-a" "f" "write" 5
              (fresh_world Scenario.seconds) _ eq_refl)
    as [w2 [Hrel [Hnone _]]].
  exists w2. split; [reflexivity|]. split; [exact Hrel|exact Hnone].
Defined.

(** X6.  [get_all_locks] never raises; it deletes the rows that have
    expired at its first reading of the clock and returns one entry per
    remaining row, in table order, with the columns of the row: no entry
    it returns has expired at that reading. *)
Theorem get_all_locks_lists_unexpired_rows (w : World) :
  let now := clock w (tick w) in
  exists locks w',
    get_all_locks w = Some (locks, w') /\
    file_locks w' = filter (fun r => now <=? fl_expires_at r) (file_locks w) /\
    map (fun i => (li_file_path i, li_agent_id i, li_operation i,
                   li_lock_time i, li_expires_at i)) locks
    = map (fun r => (fl_file_path r, fl_agent_id r, fl_operation r,
                     fl_lock_time r, fl_expires_at r)) (file_locks w') /\
    Forall (fun i => now <= li_expires_at i) locks.
Proof.
  intros now.
  assert (forall rows (w0 : World),
             exists locks n,
               mapM (fun row =>
                       t <- time_time ;;
                       ret (mkLockInfo (fl_file_path row) (fl_agent_id row)
                                       (fl_operation row) (fl_lock_time row)
                                       (fl_expires_at row)
                                       (t - fl_lock_time row)))
                    rows w0 = Some (locks, set_tick n w0) /\
               map (fun i => (li_file_path i, li_agent_id i, li_operation i,
                              li_lock_time i, li_expires_at i)) locks
               = map (fun r => (fl_file_path r, fl_agent_id r, fl_operation r,
                                fl_lock_time r, fl_expires_at r)) rows) as Hmap.
  { induction rows as [|r rows IH]; intros w0.
    - exists [], (tick w0). split; [now destruct w0|reflexivity].
    - destruct (IH (set_tick (S (tick w0)) w0)) as [locks [n [E Hl]]].
      eexists (_ :: locks), n. cbn [mapM]. unfold bind at 1.
      unfold bind at 1. cbn [time_time]. unfold ret at 1.
      unfold bind at 1. rewrite E. split; [reflexivity|].
      cbn [map]. now rewrite Hl. }
  assert (sweep_expired now (file_locks w)
          = filter (fun r => now <=? fl_expires_at r) (file_locks w)) as Hsweep.
  { unfold sweep_expired, delete_where. apply filter_ext. intros r.
    unfold expired. destruct (Z.ltb_spec (fl_expires_at r) now);
      destruct (Z.leb_spec now (fl_expires_at r)); simpl; auto; lia. }
  unfold get_all_locks. unfold bind at 1. cbn [time_time].
  unfold bind at 1. cbn [file_locks set_tick set_file_locks].
  unfold bind at 1. cbn [file_locks].
  fold now. rewrite Hsweep.
  match goal with |- context [mapM _ ?rows ?w0] =>
    destruct (Hmap rows w0) as [locks [n [E Hl]]] end.
  cbn [file_locks set_file_locks set_tick] in Hl.
  exists locks. eexists. split; [exact E|]. cbn [file_locks set_tick].
  split; [reflexivity|]. split; [exact Hl|].
  apply Forall_forall. intros i Hi.
  assert (In (li_expires_at i)
             (map (fun r => fl_expires_at r)
                  (filter (fun r => now <=? fl_expires_at r) (file_locks w))))
    as Hin.
  { rewrite <- (map_map (fun r => (fl_file_path r, fl_agent_id r,
                                   fl_operation r, fl_lock_time r,
                                   fl_expires_at r)) snd).
    rewrite <- Hl, map_map. apply in_map_iff. now exists i. }
  apply in_map_iff in Hin. destruct Hin as [r [<- Hr]].
  apply filter_In in Hr. destruct Hr as [_ Hr]. now apply Z.leb_le.
Qed.
End LockExtras.
Module HistoryExtras.
Import ChangeHistory.

Lemma largest_id_bound (rows : list ChangeRecord) (r : ChangeRecord) :
  In r rows -> ch_id r <= largest_id rows.
Proof.
  induction rows as [|r' rows IH]; simpl; [tauto|].
  intros [->|Hin]; [lia|]. specialize (IH Hin). lia.
Qed.

(** Closed form of [record_change]. *)
Lemma record_change_eq (agent_id file_path change_type : string) (j : Journal) :
  record_change agent_id file_path change_type j =
  Some (next_id j,
        mkJournal (set_tick (S (tick (store j))) (store j))
                  (change_history j
                   ++ [mkChangeRecord (next_id j) agent_id file_path
                                      change_type
                                      (clock (store j) (tick (store j)))])
                  (next_id j)).
Proof. reflexivity. Qed.

(** X7.  [record_change] always succeeds and only appends: the rows already
    in [change_history] stay as they are, the new row carries the caller's
    arguments and the time of the call, and its id, which is returned, is
    larger than every id in the table and than every id handed out before,
    so ids never repeat. *)
Theorem record_change_appends_fresh_id
    (agent_id file_path change_type : string) (j : Journal) :
  exists change_id j',
    record_change agent_id file_path change_type j = Some (change_id, j') /\
    change_history j' =
      (change_history j
       ++ [mkChangeRecord change_id agent_id file_path change_type
                          (clock (store j) (tick (store j)))])%list /\
    Forall (fun r => ch_id r < change_id) (change_history j) /\
    sqlite_sequence j < change_id /\
    sqlite_sequence j' = change_id /\
    (NoDup (map ch_id (change_history j)) ->
     NoDup (map ch_id (change_history j'))) /\
    file_locks (store j') = file_locks (store j) /\
    active_agents (store j') = active_agents (store j) /\
    delegated_tasks (store j') = delegated_tasks (store j).
Proof.
  rewrite record_change_eq. eexists _, _. split; [reflexivity|].
  cbn [change_history sqlite_sequence store].
  assert (Forall (fun r => ch_id r < next_id j) (change_history j)) as Hold.
  { apply Forall_forall. intros r Hr. apply largest_id_bound in Hr.
    unfold next_id. lia. }
  split; [reflexivity|]. split; [exact Hold|].
  split; [unfold next_id; lia|]. split; [reflexivity|].
  split; [|repeat split].
  intros Hnd. rewrite map_app. cbn [map ch_id].
  apply NoDup_app; [exact Hnd|repeat constructor; simpl; tauto|].
  intros id Hin [<-|[]].
  apply in_map_iff in Hin. destruct Hin as [r [Hid Hr]].
  rewrite Forall_forall in Hold. specialize (Hold r Hr). lia.
Qed.

(** *** The most recent change *)

Lemma insert_latest_perm (r : ChangeRecord) (rows : list ChangeRecord) :
  Permutation (insert_latest r rows) (r :: rows).
Proof.
  induction rows as [|r' rows IH]; simpl; auto.
  destruct (ch_timestamp r' <=? ch_timestamp r); auto.
  etransitivity; [apply perm_skip, IH | apply perm_swap].
Qed.

Lemma latest_first_perm (rows : list ChangeRecord) :
  Permutation (latest_first rows) rows.
Proof.
  induction rows as [|r rows IH]; simpl; auto.
  etransitivity; [apply insert_latest_perm | now apply perm_skip].
Qed.

Lemma insert_latest_sorted (r : ChangeRecord) (rows : list ChangeRecord) :
  StronglySorted (fun a b => ch_timestamp b <= ch_timestamp a) rows ->
  StronglySorted (fun a b => ch_timestamp b <= ch_timestamp a)
                 (insert_latest r rows).
Proof.
  induction 1 as [|r' rows Hs IH Hr']; simpl.
  - repeat constructor.
  - destruct (Z.leb_spec (ch_timestamp r') (ch_timestamp r)).
    + constructor; [now constructor|].
      constructor; [assumption|].
      eapply Forall_impl; [|exact Hr']. simpl. intros; lia.
    + constructor; [exact IH|].
      eapply Permutation_Forall; [symmetry; apply insert_latest_perm|].
      constructor; [lia | exact Hr'].
Qed.

Lemma latest_first_sorted (rows : list ChangeRecord) :
  StronglySorted (fun a b => ch_timestamp b <= ch_timestamp a)
                 (latest_first rows).
Proof.
  induction rows as [|r rows IH]; simpl; [constructor|].
  now apply insert_latest_sorted.
Qed.

(** The first row after [ORDER BY timestamp DESC] is one of the rows and
    none is more recent; without rows there is no first row. *)
Lemma latest_first_head (rows : list ChangeRecord) :
  match fetchone (latest_first rows) with
  | Some r => In r rows /\
              forall r', In r' rows -> ch_timestamp r' <= ch_timestamp r
  | None => rows = []
  end.
Proof.
  pose proof (latest_first_perm rows) as Hp.
  pose proof (latest_first_sorted rows) as Hs.
  destruct (latest_first rows) as [|r l]; cbn [fetchone hd_error].
  - now apply Permutation_nil.
  - split.
    + apply (Permutation_in _ Hp). now left.
    + intros r' Hr'. apply (Permutation_in _ (Permutation_sym Hp)) in Hr'.
      inversion Hs as [|? ? _ Hall]; subst.
      destruct Hr' as [->|Hr']; [lia|].
      rewrite Forall_forall in Hall. now apply Hall.
Qed.

(** Closed form of [check_conflicts]. *)
Lemma check_conflicts_eq (file_path : string) (window_seconds : Z)
    (j : Journal) :
  let w := store j in
  let cutoff_time := clock w (tick w) - window_seconds in
  check_conflicts file_path window_seconds j =
  match fetchone (latest_first (filter (in_window file_path cutoff_time)
                                       (change_history j))) with
  | Some r =>
      Some (Some (mkConflict true (ch_agent_id r) (ch_change_type r)
                             (ch_timestamp r)
                             (clock w (S (tick w)) - ch_timestamp r)),
            mkJournal (set_tick (S (S (tick w))) w) (change_history j)
                      (sqlite_sequence j))
  | None =>
      Some (None,
            mkJournal (set_tick (S (tick w)) w) (change_history j)
                      (sqlite_sequence j))
  end.
Proof.
  intros w cutoff_time. unfold check_conflicts, bindJ, lift, retJ.
  cbn [time_time store change_history sqlite_sequence].
  fold w. fold cutoff_time.
  destruct (fetchone _); reflexivity.
Qed.

(** X8.  [check_conflicts] never raises and never writes to a table.  It
    returns [None] exactly when no change of the resource is recorded with
    a timestamp after [now - window_seconds]; otherwise it reports, with
    [has_conflict] set, the agent, kind and timestamp of a recorded change
    of the resource inside the window than which none is more recent. *)
Theorem check_conflicts_reports_latest_change (file_path : string)
    (window_seconds : Z) (j : Journal) :
  let cutoff_time := clock (store j) (tick (store j)) - window_seconds in
  exists result j',
    check_conflicts file_path window_seconds j = Some (result, j') /\
    change_history j' = change_history j /\
    sqlite_sequence j' = sqlite_sequence j /\
    file_locks (store j') = file_locks (store j) /\
    active_agents (store j') = active_agents (store j) /\
    delegated_tasks (store j') = delegated_tasks (store j) /\
    match result with
    | None =>
        forall r, In r (change_history j) -> ch_file_path r = file_path ->
                  ch_timestamp r <= cutoff_time
    | Some c =>
        cf_has_conflict c = true /\
        exists r,
          In r (change_history j) /\ ch_file_path r = file_path /\
          cutoff_time < ch_timestamp r /\
          cf_last_agent c = ch_agent_id r /\
          cf_change_type c = ch_change_type r /\
          cf_timestamp c = ch_timestamp r /\
          forall r', In r' (change_history j) ->
                     ch_file_path r' = file_path ->
                     ch_timestamp r' <= ch_timestamp r
    end.
Proof.
  intros cutoff_time. rewrite check_conflicts_eq. fold cutoff_time.
  pose proof (latest_first_head
                (filter (in_window file_path cutoff_time) (change_history j)))
    as Hhead.
  destruct (fetchone _) as [r|].
  - destruct Hhead as [Hin Hmax]. apply filter_In in Hin.
    destruct Hin as [Hin Hw]. unfold in_window in Hw.
    apply andb_true_iff in Hw. destruct Hw as [Hp Ht].
    apply String.eqb_eq in Hp. apply Z.ltb_lt in Ht.
    eexists _, _. split; [reflexivity|]. cbn.
    do 5 (split; [reflexivity|]). split; [reflexivity|].
    exists r. repeat split; auto.
    intros r' Hr' Hp'.
    destruct (Z.le_gt_cases (ch_timestamp r') cutoff_time) as [Hold|Hnew];
      [lia|].
    apply Hmax. apply filter_In. split; [exact Hr'|].
    unfold in_window. apply andb_true_iff. split.
    + rewrite Hp'. apply String.eqb_refl.
    + apply Z.ltb_lt. lia.
  - eexists _, _. split; [reflexivity|]. cbn.
    do 5 (split; [reflexivity|]).
    intros r Hr Hp.
    destruct (Z.le_gt_cases (ch_timestamp r) cutoff_time) as [Hold|Hnew];
      [exact Hold|].
    assert (In r (filter (in_window file_path cutoff_time) (change_history j)))
      as Habs.
    { apply filter_In. split; [exact Hr|].
      unfold in_window. apply andb_true_iff. split.
      - rewrite Hp. apply String.eqb_refl.
      - apply Z.ltb_lt. lia. }
    rewrite Hhead in Habs. destruct Habs.
Qed.

(** X9.  A change recorded by an agent is what the next [check_conflicts]
    on the resource reports, provided the check falls inside the window
    and every earlier change of the resource has an older timestamp. *)
Theorem recorded_change_is_reported
    (agent_id file_path change_type : string) (window_seconds : Z)
    (j : Journal) :
  let w := store j in
  let recorded_at := clock w (tick w) in
  clock w (S (tick w)) - window_seconds < recorded_at ->
  (forall r, In r (change_history j) -> ch_file_path r = file_path ->
             ch_timestamp r < recorded_at) ->
  exists change_id j1 j2,
    record_change agent_id file_path change_type j = Some (change_id, j1) /\
    check_conflicts file_path window_seconds j1
    = Some (Some (mkConflict true agent_id change_type recorded_at
                             (clock w (S (S (tick w))) - recorded_at)), j2).
Proof.
  intros w recorded_at Hwindow Holder.
  rewrite record_change_eq. eexists _, _, _. split; [reflexivity|].
  rewrite check_conflicts_eq.
  cbn [store change_history sqlite_sequence clock tick set_tick].
  fold w. fold recorded_at.
  set (new := mkChangeRecord (next_id j) agent_id file_path change_type
                             recorded_at).
  set (cutoff_time := clock w (S (tick w)) - window_seconds).
  pose proof (latest_first_head
                (filter (in_window file_path cutoff_time)
                        (change_history j ++ [new]))) as Hhead.
  assert (In new (filter (in_window file_path cutoff_time)
                         (change_history j ++ [new]))) as Hnew.
  { apply filter_In. split; [apply in_or_app; right; now left|].
    unfold in_window. cbn [ch_file_path ch_timestamp new].
    rewrite String.eqb_refl. apply Z.ltb_lt. unfold cutoff_time. lia. }
  destruct (fetchone _) as [r|]; [|rewrite Hhead in Hnew; destruct Hnew].
  destruct Hhead as [Hin Hmax].
  assert (r = new) as ->.
  { apply filter_In in Hin. destruct Hin as [Hin Hw].
    apply in_app_or in Hin. destruct Hin as [Hin|[<-|[]]]; [|reflexivity].
    exfalso. unfold in_window in Hw. apply andb_true_iff in Hw.
    destruct Hw as [Hp _]. apply String.eqb_eq in Hp.
    specialize (Holder r Hin Hp). specialize (Hmax new Hnew).
    cbn [ch_timestamp new] in Hmax. lia. }
  reflexivity.
Qed.

(** Agent a records a change of f; a check one second later, over the
    default window of 300 seconds, reports it. *)
Lemma recorded_change_is_reported_witness :
  exists change_id j1 j2,
    record_change "agent-a" "f" "modified" (fresh_journal Scenario.seconds)
    = Some (change_id, j1) /\
    check_conflicts "f" 300 j1
    = Some (Some (mkConflict true "agent-a" "modified" 0 2), j2).
Proof.
  apply (recorded_change_is_reported "agent-a" "f" "modified" 300
           (fresh_journal Scenario.seconds)).
  - reflexivity.
  - intros r [].
Defined.
End HistoryExtras.
Module DetectorExtras.
Import HeartbeatMonitor DetectorFacts.

(** The row that [send_heartbeat] writes in place of [a] at time [now]. *)
Lemma send_heartbeat_eq (agent_id : string) (status : option string)
    (w : World) :
  let now := clock w (tick w) in
  let kept_status (a : Agent) :=
    match status with
    | Some s => if Py.truthy s then s else ag_status a
    | None => ag_status a
    end in
  send_heartbeat agent_id status w =
  Some (0 <? rowcount (has_id agent_id) (active_agents w),
        mkWorld (clock w) (S (tick w)) (file_locks w)
                (update_where (has_id agent_id)
                   (fun a => mkAgent (ag_agent_id a) (ag_capabilities a)
                                     (kept_status a) now (ag_registered_at a)
                                     (ag_workload a))
                   (active_agents w))
                (delegated_tasks w)).
Proof.
  intros now kept_status. unfold send_heartbeat, bind. cbn [time_time].
  cbn [active_agents set_tick set_active_agents clock tick file_locks
       delegated_tasks].
  fold now. unfold set_active_agents, set_tick.
  cbn [active_agents clock tick file_locks delegated_tasks].
  do 2 f_equal. f_equal.
  unfold update_where. apply map_ext. intros a.
  destruct (has_id agent_id a); [|reflexivity].
  unfold kept_status. destruct status as [s|]; [destruct (Py.truthy s)|];
    reflexivity.
Qed.

Lemma rowcount_pos_iff (A : Type) (p : A -> bool) (rows : list A) :
  (0 <? rowcount p rows) = true <-> exists r, In r rows /\ p r = true.
Proof.
  unfold rowcount. rewrite Z.ltb_lt. split.
  - intros H. destruct (filter p rows) as [|r l] eqn:E; [simpl in H; lia|].
    exists r. apply filter_In. rewrite E. now left.
  - intros [r Hr]. apply filter_In in Hr.
    destruct (filter p rows); [destruct Hr|simpl; lia].
Qed.

Lemma update_where_none (A : Type) (p : A -> bool) (f : A -> A)
    (rows : list A) :
  (forall r, In r rows -> p r = false) -> update_where p f rows = rows.
Proof.
  unfold update_where. intros H.
  rewrite <- (map_id rows) at 2. apply map_ext_in.
  intros r Hr. now rewrite (H r Hr).
Qed.

Lemma registered_iff (agent_id : string) (rows : list Agent) :
  (exists a, In a rows /\ has_id agent_id a = true) <->
  In agent_id (map ag_agent_id rows).
Proof.
  rewrite in_map_iff. unfold has_id. split.
  - intros [a [Hin Ha]]. exists a. split; [now apply String.eqb_eq|exact Hin].
  - intros [a [Ha Hin]]. exists a. split; [exact Hin|].
    now apply String.eqb_eq.
Qed.

(** X10.  [send_heartbeat] never raises and never adds or removes an agent.
    It returns [True] exactly when the agent is registered; for an unknown
    agent it returns [False] and leaves the table as it is: there is no
    implicit registration. *)
Theorem heartbeat_needs_registration (agent_id : string)
    (status : option string) (w : World) :
  exists b w',
    send_heartbeat agent_id status w = Some (b, w') /\
    (b = true <-> In agent_id (map ag_agent_id (active_agents w))) /\
    map ag_agent_id (active_agents w') = map ag_agent_id (active_agents w) /\
    (b = false -> active_agents w' = active_agents w) /\
    file_locks w' = file_locks w /\
    delegated_tasks w' = delegated_tasks w.
Proof.
  rewrite send_heartbeat_eq. eexists _, _. split; [reflexivity|].
  cbn [active_agents file_locks delegated_tasks].
  split; [|split; [|split; [|split; reflexivity]]].
  - rewrite rowcount_pos_iff. apply registered_iff.
  - unfold update_where. rewrite map_map. apply map_ext.
    intros a. now destruct (has_id agent_id a).
  - intros Hb. apply update_where_none. intros r Hr.
    destruct (has_id agent_id r) eqn:E; [|reflexivity].
    assert ((0 <? rowcount (has_id agent_id) (active_agents w)) = true) as Ht
        by (apply rowcount_pos_iff; now exists r).
    congruence.
Qed.

(** X11.  A heartbeat changes nothing but the [last_heartbeat] and the
    [status] of the rows of the agent: capabilities, registration time and
    workload are kept, and so is the status when none is given or when the
    given one is the empty string. *)
Theorem heartbeat_keeps_other_columns (agent_id : string)
    (status : option string) (w : World) :
  exists b w',
    send_heartbeat agent_id status w = Some (b, w') /\
    Forall2
      (fun a a' =>
         ag_agent_id a' = ag_agent_id a /\
         ag_capabilities a' = ag_capabilities a /\
         ag_registered_at a' = ag_registered_at a /\
         ag_workload a' = ag_workload a /\
         (ag_agent_id a <> agent_id -> a' = a) /\
         (ag_agent_id a = agent_id ->
          ag_last_heartbeat a' = clock w (tick w) /\
          ag_status a' =
            match status with
            | Some "" | None => ag_status a
            | Some s => s
            end))
      (active_agents w) (active_agents w').
Proof.
  rewrite send_heartbeat_eq. eexists _, _. split; [reflexivity|].
  cbn [active_agents]. unfold update_where.
  induction (active_agents w) as [|a rows IH]; cbn [map]; constructor;
    [|exact IH].
  unfold has_id. destruct (String.eqb_spec (ag_agent_id a) agent_id) as [E|E].
  - cbn [ag_agent_id ag_capabilities ag_registered_at ag_workload
         ag_last_heartbeat ag_status].
    do 4 (split; [reflexivity|]). split; [congruence|].
    intros _. split; [reflexivity|].
    destruct status as [[|c s]|]; reflexivity.
  - do 4 (split; [reflexivity|]). split; [reflexivity|congruence].
Qed.

Lemma fetchone_update_where (A : Type) (p : A -> bool) (f : A -> A)
    (rows : list A) :
  fetchone (update_where p f rows)
  = option_map (fun r => if p r then f r else r) (fetchone rows).
Proof. now destruct rows. Qed.

Lemma filter_update_same_key (agent_id : string) (p : Agent -> bool)
    (f : Agent -> Agent) (rows : list Agent) :
  (forall a, ag_agent_id (f a) = ag_agent_id a) ->
  filter (has_id agent_id) (update_where p f rows)
  = update_where p f (filter (has_id agent_id) rows).
Proof.
  intros Hf. unfold update_where.
  induction rows as [|a rows IH]; cbn [map filter]; [reflexivity|].
  assert (has_id agent_id (if p a then f a else a) = has_id agent_id a) as ->
      by (unfold has_id; destruct (p a); [now rewrite Hf|reflexivity]).
  destruct (has_id agent_id a); cbn [map]; now rewrite IH.
Qed.

(** X12.  A heartbeat brings a registered agent back to life: whatever its
    previous [last_heartbeat], a [get_agent_status] made less than
    [timeout_seconds] after the heartbeat reports it alive, with the time of
    the heartbeat and its workload unchanged, and [get_active_agents] lists
    it. *)
Theorem heartbeat_revives (timeout_seconds : Z) (agent_id : string)
    (status : option string) (a : Agent) (w : World) :
  fetchone (filter (has_id agent_id) (active_agents w)) = Some a ->
  clock w (S (tick w)) - clock w (tick w) < timeout_seconds ->
  exists w1 st w2 infos w3,
    send_heartbeat agent_id status w = Some (true, w1) /\
    get_agent_status timeout_seconds agent_id w1 = Some (Some st, w2) /\
    as_is_alive st = true /\
    as_last_heartbeat st = clock w (tick w) /\
    as_workload st = ag_workload a /\
    get_active_agents timeout_seconds None w1 = Some (infos, w3) /\
    In agent_id (map ai_agent_id infos).
Proof.
  intros Hrow Hsoon.
  assert (In a (active_agents w) /\ has_id agent_id a = true) as [Hin Hid].
  { apply filter_In. destruct (filter _ _) as [|a0 l];
      [discriminate|]. injection Hrow as ->. now left. }
  rewrite send_heartbeat_eq.
  set (touch := fun a0 : Agent => mkAgent _ _ _ _ _ _).
  assert ((0 <? rowcount (has_id agent_id) (active_agents w)) = true) as ->
      by (apply rowcount_pos_iff; now exists a).
  match goal with |- context [Some (true, ?w0)] => set (w1 := w0) end.
  destruct (get_active_agents_spec timeout_seconds None w1)
    as [infos [n [Eact HF]]].
  assert (fetchone (filter (has_id agent_id) (active_agents w1))
          = Some (touch a)) as Hrow1.
  { unfold w1. cbn [active_agents].
    rewrite filter_update_same_key by reflexivity.
    rewrite fetchone_update_where, Hrow. cbn [option_map]. now rewrite Hid. }
  exists w1. eexists _, _, infos, _. split; [reflexivity|].
  split; [unfold get_agent_status, bind; rewrite Hrow1;
          cbn [time_time]; reflexivity|].
  cbn [as_is_alive as_last_heartbeat as_workload touch ag_last_heartbeat
       ag_workload].
  split; [apply Z.ltb_lt; unfold w1; cbn [clock tick]; exact Hsoon|].
  split; [reflexivity|]. split; [reflexivity|]. split; [exact Eact|].
  assert (map ai_agent_id infos =
          map ag_agent_id
              (filter (passes None)
                 (filter (recent (clock w1 (tick w1) - timeout_seconds))
                         (active_agents w1)))) as ->.
  { clear Eact. induction HF as [|r i l l' [Hi _] _ IH]; simpl; congruence. }
  apply in_map_iff. exists (touch a). split.
  - unfold has_id in Hid. now apply String.eqb_eq in Hid.
  - apply filter_In. split; [|reflexivity]. apply filter_In. split.
    + unfold w1. cbn [active_agents]. unfold update_where.
      apply in_map_iff. exists a. now rewrite Hid.
    + unfold recent, w1. cbn [clock tick ag_last_heartbeat touch].
      apply Z.ltb_lt. lia.
Qed.

(** The agent that had fallen silent for sixty seconds is alive again
    after one heartbeat. *)
Lemma heartbeat_revives_witness :
  exists w1 st w2,
    send_heartbeat "worker-02" (Some "scanning") Scenario.at_cutoff
    = Some (true, w1) /\
    get_agent_status 60 "worker-02" w1 = Some (Some st, w2) /\
    as_is_alive st = true.
Proof.
  destruct (heartbeat_revives 60 "worker-02" (Some "scanning")
              (mkAgent "worker-02" "security,scanning" "idle" 0 0 0)
              Scenario.at_cutoff eq_refl eq_refl)
    as [w1 [st [w2 [_ [_ [Hhb [Hst [Halive _]]]]]]]].
  exists w1, st, w2. auto.
Defined.

(** X13.  [unregister_agent] never raises; it returns [True] exactly when
    the agent was registered and removes the rows of that agent and no
    other.  Afterwards [get_agent_status] finds nothing and a heartbeat of
    the agent is refused. *)
Theorem unregister_forgets_agent (timeout_seconds : Z) (agent_id : string)
    (status : option string) (w : World) :
  exists b w',
    unregister_agent agent_id w = Some (b, w') /\
    (b = true <-> In agent_id (map ag_agent_id (active_agents w))) /\
    (forall a, In a (active_agents w') <->
               In a (active_agents w) /\ ag_agent_id a <> agent_id) /\
    get_agent_status timeout_seconds agent_id w' = Some (None, w') /\
    option_map fst (send_heartbeat agent_id status w') = Some false.
Proof.
  unfold unregister_agent. eexists _, _. split; [reflexivity|].
  cbn [active_agents set_active_agents].
  assert (filter (has_id agent_id)
                 (delete_where (has_id agent_id) (active_agents w)) = [])
    as Hgone.
  { unfold delete_where.
    induction (active_agents w) as [|a rows IH]; cbn [filter]; auto.
    destruct (has_id agent_id a) eqn:E; cbn [negb filter]; auto.
    now rewrite E. }
  split; [|split; [|split]].
  - rewrite rowcount_pos_iff. apply registered_iff.
  - intros a. unfold delete_where. rewrite filter_In. unfold has_id.
    destruct (String.eqb_spec (ag_agent_id a) agent_id); cbn [negb];
      intuition congruence.
  - unfold get_agent_status, bind. cbn [active_agents set_active_agents].
    now rewrite Hgone.
  - rewrite send_heartbeat_eq.
    cbn [option_map fst active_agents set_active_agents].
    unfold rowcount. now rewrite Hgone.
Qed.

Lemma all_in_iff (wanted have : list string) :
  Py.all_in wanted have = true <->
  forall cap, In cap wanted -> In cap have.
Proof.
  unfold Py.all_in, Py.contains. rewrite forallb_forall.
  split; intros H cap Hcap.
  - specialize (H cap Hcap). apply existsb_exists in H.
    destruct H as [x [Hx Heq]]. apply String.eqb_eq in Heq. now subst.
  - apply existsb_exists. exists cap. split; [now apply H|].
    apply String.eqb_refl.
Qed.

(** X14.  [get_active_agents] never raises and never writes.  With a list
    of wanted capabilities it returns, in table order, one entry for every
    agent whose last heartbeat is less than [timeout_seconds] old and whose
    capabilities include every wanted one, and no other entry. *)
Theorem active_agents_have_every_wanted_capability (timeout_seconds : Z)
    (wanted : list string) (w : World) :
  let now := clock w (tick w) in
  exists infos w',
    get_active_agents timeout_seconds (Some wanted) w = Some (infos, w') /\
    active_agents w' = active_agents w /\
    Forall2 describes
            (filter (fun a =>
                       (now - ag_last_heartbeat a <? timeout_seconds)
                       && Py.all_in wanted
                            (parse_capabilities (ag_capabilities a)))
                    (active_agents w))
            infos /\
    Forall (fun i => forall cap, In cap wanted -> In cap (ai_capabilities i))
           infos.
Proof.
  intros now.
  destruct (get_active_agents_spec timeout_seconds (Some wanted) w)
    as [infos [n [E HF]]].
  exists infos, (set_tick n w). split; [exact E|]. split; [reflexivity|].
  fold now in HF.
  assert (forall rows,
             filter (passes (Some wanted))
                    (filter (recent (now - timeout_seconds)) rows)
             = filter (fun a =>
                         (now - ag_last_heartbeat a <? timeout_seconds)
                         && Py.all_in wanted
                              (parse_capabilities (ag_capabilities a)))
                      rows) as Hrows.
  { induction rows as [|a rows IH]; cbn [filter]; auto.
    assert (recent (now - timeout_seconds) a
            = (now - ag_last_heartbeat a <? timeout_seconds)) as ->.
    { unfold recent.
      destruct (Z.ltb_spec (now - timeout_seconds) (ag_last_heartbeat a));
        destruct (Z.ltb_spec (now - ag_last_heartbeat a) timeout_seconds);
        auto; lia. }
    destruct (now - ag_last_heartbeat a <? timeout_seconds);
      cbn [filter andb]; [|exact IH].
    assert (passes (Some wanted) a
            = Py.all_in wanted (parse_capabilities (ag_capabilities a))) as ->.
    { unfold passes. destruct wanted; reflexivity. }
    destruct (Py.all_in wanted _); now rewrite IH. }
  rewrite Hrows in HF. split; [exact HF|].
  clear E Hrows.
  assert (Forall (fun a => Py.all_in wanted
                             (parse_capabilities (ag_capabilities a)) = true)
                 (filter (fun a =>
                            (now - ag_last_heartbeat a <? timeout_seconds)
                            && Py.all_in wanted
                                 (parse_capabilities (ag_capabilities a)))
                         (active_agents w))) as Hall.
  { apply Forall_forall. intros a Ha. apply filter_In in Ha.
    destruct Ha as [_ Ha]. apply andb_true_iff in Ha. tauto. }
  induction HF as [|a i rows infos [_ [Hcaps _]] _ IH]; constructor.
  - inversion Hall as [|? ? Ha _]; subst. rewrite Hcaps.
    now apply all_in_iff.
  - apply IH. now inversion Hall.
Qed.

(** X15.  An empty list of wanted capabilities filters nothing:
    [get_active_agents([])] is [get_active_agents()]. *)
Theorem empty_capability_filter_is_no_filter (timeout_seconds : Z)
    (w : World) :
  get_active_agents timeout_seconds (Some []) w
  = get_active_agents timeout_seconds None w.
Proof.
  assert (forall rows w0,
             collect_agents (Some []) rows w0 = collect_agents None rows w0)
    as Hsame.
  { induction rows as [|a rows IH]; intros w0; cbn [collect_agents]; auto.
    cbn [Py.truthy_list andb]. unfold bind. cbn [time_time].
    now rewrite IH. }
  unfold get_active_agents, bind. cbn [time_time]. apply Hsame.
Qed.

Lemma unique_agent_row (agent_id : string) (rows : list Agent) :
  NoDup (map ag_agent_id rows) ->
  filter (has_id agent_id) rows = [] \/
  exists a, filter (has_id agent_id) rows = [a].
Proof.
  induction rows as [|a rows IH]; cbn [map filter]; intros Hnd; [now left|].
  inversion Hnd as [|? ? Ha Hrows]; subst.
  destruct (has_id agent_id a) eqn:E; [|now apply IH].
  right. exists a. f_equal.
  destruct (filter (has_id agent_id) rows) as [|b l] eqn:Ef; [reflexivity|].
  exfalso. apply Ha.
  assert (In b (filter (has_id agent_id) rows)) as Hb
      by (rewrite Ef; now left).
  apply filter_In in Hb. destruct Hb as [Hb Hid].
  apply in_map_iff. exists b. split; [|exact Hb].
  unfold has_id in *. apply String.eqb_eq in E, Hid. congruence.
Qed.

(** X16.  The [is_alive] flag of [get_agent_status] and the list of
    [get_active_agents] agree: on a table that respects its primary key and
    at the same reading of the clock, an agent is listed exactly when its
    status exists and says it is alive. *)
Theorem is_alive_agrees_with_listing (timeout_seconds : Z)
    (agent_id : string) (w : World) :
  NoDup (map ag_agent_id (active_agents w)) ->
  exists found w1 infos w2,
    get_agent_status timeout_seconds agent_id w = Some (found, w1) /\
    get_active_agents timeout_seconds None w = Some (infos, w2) /\
    (In agent_id (map ai_agent_id infos) <->
     exists st, found = Some st /\ as_is_alive st = true).
Proof.
  intros Hnd.
  destruct (get_active_agents_spec timeout_seconds None w)
    as [infos [n [E HF]]].
  assert (map ai_agent_id infos =
          map ag_agent_id
              (filter (recent (clock w (tick w) - timeout_seconds))
                      (active_agents w))) as Hids.
  { rewrite (forallb_filter_id (passes None)) in HF
      by (apply forallb_forall; reflexivity).
    clear E. induction HF as [|r i l l' [Hi _] _ IH]; simpl; congruence. }
  assert (forall a, recent (clock w (tick w) - timeout_seconds) a
                    = (clock w (tick w) - ag_last_heartbeat a
                       <? timeout_seconds)) as Hrecent.
  { intros a. unfold recent.
    destruct (Z.ltb_spec (clock w (tick w) - timeout_seconds)
                         (ag_last_heartbeat a));
      destruct (Z.ltb_spec (clock w (tick w) - ag_last_heartbeat a)
                           timeout_seconds); auto; lia. }
  unfold get_agent_status, bind.
  destruct (unique_agent_row agent_id (active_agents w) Hnd) as [Hno|[a Ha]].
  - rewrite Hno. cbn [fetchone hd_error].
    eexists _, _, infos, _. split; [reflexivity|]. split; [exact E|].
    rewrite Hids. split.
    + intros Hin. exfalso. apply in_map_iff in Hin.
      destruct Hin as [a [Hid Hin]]. apply filter_In in Hin.
      assert (In a (filter (has_id agent_id) (active_agents w))) as Habs.
      { apply filter_In. split; [tauto|]. unfold has_id.
        now apply String.eqb_eq. }
      rewrite Hno in Habs. exact Habs.
    + intros [st [Hst _]]. discriminate.
  - rewrite Ha. cbn [fetchone hd_error time_time].
    eexists _, _, infos, _. split; [reflexivity|]. split; [exact E|].
    rewrite Hids.
    assert (In a (active_agents w) /\ has_id agent_id a = true) as [Hin Hid]
        by (apply filter_In; rewrite Ha; now left).
    split.
    + intros Hlisted. eexists. split; [reflexivity|].
      cbn [as_is_alive]. rewrite <- Hrecent.
      apply in_map_iff in Hlisted. destruct Hlisted as [a' [Hid' Hin']].
      apply filter_In in Hin'. destruct Hin' as [Hin' Hrec].
      assert (In a' (filter (has_id agent_id) (active_agents w))) as Hsame.
      { apply filter_In. split; [exact Hin'|]. unfold has_id.
        now apply String.eqb_eq. }
      rewrite Ha in Hsame. destruct Hsame as [<-|[]]. exact Hrec.
    + intros [st [Hst Halive]]. injection Hst as <-.
      cbn [as_is_alive] in Halive. rewrite <- Hrecent in Halive.
      apply in_map_iff. exists a. split.
      * unfold has_id in Hid. now apply String.eqb_eq.
      * apply filter_In. split; assumption.
Qed.

(** The silent agent is neither listed nor reported alive. *)
Lemma is_alive_agrees_with_listing_witness :
  exists found w1 infos w2,
    get_agent_status 60 "worker-02" Scenario.at_cutoff = Some (found, w1) /\
    get_active_agents 60 None Scenario.at_cutoff = Some (infos, w2) /\
    (In "worker-02" (map ai_agent_id infos) <->
     exists st, found = Some st /\ as_is_alive st = true).
Proof.
  apply (is_alive_agrees_with_listing 60 "worker-02" Scenario.at_cutoff).
  repeat constructor. simpl. tauto.
Defined.

(** The entries collected for given rows depend on the store only through
    the clock. *)
Lemma collect_agents_clock (capability_filter : option (list string))
    (rows : list Agent) (w w' : World) :
  clock w = clock w' -> tick w = tick w' ->
  option_map fst (collect_agents capability_filter rows w)
  = option_map fst (collect_agents capability_filter rows w').
Proof.
  revert w w'. induction rows as [|a rows IH]; intros w w' Hc Ht;
    cbn [collect_agents]; [reflexivity|].
  destruct (match capability_filter with Some _ => _ | None => _ end).
  - now apply IH.
  - unfold bind at 1 3. cbn [time_time].
    specialize (IH (set_tick (S (tick w)) w) (set_tick (S (tick w')) w')).
    cbn [clock tick set_tick] in IH.
    specialize (IH Hc (f_equal S Ht)).
    unfold bind.
    destruct (collect_agents capability_filter rows
                             (set_tick (S (tick w)) w)) as [[l1 w1]|];
      destruct (collect_agents capability_filter rows
                               (set_tick (S (tick w')) w')) as [[l2 w2]|];
      cbn [option_map fst ret] in *; try discriminate; [|reflexivity].
    injection IH as ->. now rewrite Hc, Ht.
Qed.

(** X17.  Sweeping does not change who is listed: when the clock does not
    run backwards, [get_active_agents] called right after
    [cleanup_stale_agents], with the same timeout, returns what it would
    have returned at that moment had nothing been swept. *)
Theorem cleanup_keeps_listed_agents (timeout_seconds : Z)
    (capability_filter : option (list string)) (w : World) :
  clock w (tick w) <= clock w (S (tick w)) ->
  exists removed w1,
    cleanup_stale_agents timeout_seconds w = Some (removed, w1) /\
    option_map fst (get_active_agents timeout_seconds capability_filter w1)
    = option_map fst (get_active_agents timeout_seconds capability_filter
                                        (set_tick (S (tick w)) w)).
Proof.
  intros Hclock. unfold cleanup_stale_agents. unfold bind at 1.
  cbn [time_time]. eexists _, _. split; [reflexivity|].
  unfold get_active_agents. unfold bind at 1 3. cbn [time_time].
  unfold bind at 1 2.
  cbn [active_agents set_active_agents set_tick clock tick].
  assert (filter (recent (clock w (S (tick w)) - timeout_seconds))
                 (delete_where (stale (clock w (tick w) - timeout_seconds))
                               (active_agents w))
          = filter (recent (clock w (S (tick w)) - timeout_seconds))
                   (active_agents w)) as ->.
  { unfold delete_where.
    induction (active_agents w) as [|a rows IH]; cbn [filter]; auto.
    destruct (stale (clock w (tick w) - timeout_seconds) a) eqn:Es;
      cbn [negb filter].
    - assert (recent (clock w (S (tick w)) - timeout_seconds) a = false) as ->.
      { unfold stale in Es. unfold recent. apply Z.ltb_lt in Es.
        apply Z.ltb_ge. lia. }
      exact IH.
    - destruct (recent (clock w (S (tick w)) - timeout_seconds) a);
        now rewrite IH. }
  apply collect_agents_clock; reflexivity.
Qed.

(** After the sweep at reading 60 the listing is what it would have been
    without it. *)
Lemma cleanup_keeps_listed_agents_witness :
  exists removed w1,
    cleanup_stale_agents 60 Scenario.at_cutoff = Some (removed, w1) /\
    option_map fst (get_active_agents 60 None w1)
    = option_map fst (get_active_agents 60 None
                                        (set_tick 1 Scenario.at_cutoff)).
Proof.
  apply (cleanup_keeps_listed_agents 60 None Scenario.at_cutoff).
  vm_compute. discriminate.
Defined.

(** X18.  [register_agent] is an upsert that starts the agent afresh: it
    always returns [True], leaves exactly one row for the agent, keeps the
    rows of the other agents, and the status read back shows the given
    status, a workload of 0 and the time of the call as both registration
    and last heartbeat, whatever row the agent had before.  A table that
    respects its primary key still does. *)
Theorem register_starts_afresh (timeout_seconds : Z) (agent_id : string)
    (capabilities : list string) (status : string) (w : World) :
  let now := clock w (tick w) in
  exists w1 st w2,
    register_agent agent_id capabilities status w = Some (true, w1) /\
    List.length (filter (has_id agent_id) (active_agents w1)) = 1%nat /\
    (forall a, ag_agent_id a <> agent_id ->
               (In a (active_agents w1) <-> In a (active_agents w))) /\
    (NoDup (map ag_agent_id (active_agents w)) ->
     NoDup (map ag_agent_id (active_agents w1))) /\
    get_agent_status timeout_seconds agent_id w1 = Some (Some st, w2) /\
    as_status st = status /\
    as_workload st = 0 /\
    as_registered_at st = now /\
    as_last_heartbeat st = now /\
    as_is_alive st = (clock w (S (tick w)) - now <? timeout_seconds).
Proof.
  intros now.
  set (row := mkAgent agent_id (Py.join "," capabilities) status now now 0).
  pose proof (filter_insert_or_replace row (active_agents w)) as Hrow.
  cbn [ag_agent_id row] in Hrow.
  exists (mkWorld (clock w) (S (tick w)) (file_locks w)
                  (insert_or_replace row (active_agents w))
                  (delegated_tasks w)).
  eexists _, _. split; [reflexivity|]. cbn [active_agents].
  split; [now rewrite Hrow|]. split; [|split; [|split]].
  - intros a Ha. unfold insert_or_replace, delete_where.
    rewrite in_app_iff, filter_In. cbn [In ag_agent_id row].
    unfold has_id. destruct (String.eqb_spec (ag_agent_id a) agent_id);
      [contradiction|]. cbn [negb]. split; [|tauto].
    intros [[H _]|[H|[]]]; [exact H|]. subst a. now elim Ha.
  - intros Hnd. unfold insert_or_replace. rewrite map_app.
    apply NoDup_app.
    + unfold delete_where. now apply LockFacts.NoDup_map_filter.
    + repeat constructor. simpl. tauto.
    + intros id Hin [<-|[]]. cbn [ag_agent_id row] in Hin.
      apply in_map_iff in Hin. destruct Hin as [a [Hid Hin]].
      unfold delete_where in Hin. apply filter_In in Hin.
      destruct Hin as [_ Hin]. unfold has_id in Hin.
      rewrite Hid, String.eqb_refl in Hin. discriminate.
  - unfold get_agent_status, bind. cbn [active_agents]. rewrite Hrow.
    cbn [fetchone hd_error time_time]. reflexivity.
  - repeat split.
Qed.
End DetectorExtras.
Module SchedulerExtras.
Import TaskDelegationSystem Execution SchedulerFacts.

Lemma update_where_untouched (A : Type) (p : A -> bool) (f : A -> A)
    (rows : list A) :
  (forall r, In r rows -> p r = false) -> update_where p f rows = rows.
Proof.
  unfold update_where. intros H.
  rewrite <- (map_id rows) at 2. apply map_ext_in.
  intros r Hr. now rewrite (H r Hr).
Qed.

Lemma rowcount_zero (A : Type) (p : A -> bool) (rows : list A) :
  (forall r, In r rows -> p r = false) -> rowcount p rows = 0.
Proof.
  intros H. unfold rowcount.
  assert (filter p rows = []) as ->; [|reflexivity].
  induction rows as [|r rows IH]; cbn [filter]; auto.
  rewrite (H r (or_introl eq_refl)). apply IH.
  intros r' Hr'. apply H. now right.
Qed.

(** A claim that finds every row of the task assigned to somebody else
    changes nothing. *)
Lemma claim_task_refused (task_id agent_id : string) (w : World) :
  (forall t, In t (delegated_tasks w) -> tk_task_id t = task_id ->
             exists other, tk_assigned_agent_id t = Some other /\
                           other <> agent_id) ->
  claim_task task_id agent_id w
  = Some (false, set_tick (S (tick w)) w).
Proof.
  intros Htaken. rewrite claim_task_eq.
  assert (forall t, In t (delegated_tasks w) ->
                    claimable_by task_id agent_id t = false) as Hc.
  { intros t Ht. unfold claimable_by, task_is.
    destruct (String.eqb_spec (tk_task_id t) task_id) as [E|E];
      [|reflexivity].
    destruct (Htaken t Ht E) as [other [-> Hother]]. cbn [andb].
    now apply String.eqb_neq. }
  assert (forall t, In t (delegated_tasks w) -> unassigned task_id t = false)
    as Hu.
  { intros t Ht. unfold unassigned, task_is.
    destruct (String.eqb_spec (tk_task_id t) task_id) as [E|E];
      [|reflexivity].
    destruct (Htaken t Ht E) as [other [-> _]]. reflexivity. }
  rewrite (update_where_untouched _ (claimable_by task_id agent_id)) by exact Hc.
  rewrite (update_where_untouched _ (unassigned task_id)) by exact Hu.
  rewrite (rowcount_zero _ _ _ Hu). reflexivity.
Qed.

(** X19.  [claim_task] on a task that does not exist, or that is assigned
    to another agent, returns [False] and changes neither the tasks nor the
    agents. *)
Theorem claim_of_anothers_task_is_refused (task_id agent_id : string)
    (w : World) :
  (forall t, In t (delegated_tasks w) -> tk_task_id t = task_id ->
             exists other, tk_assigned_agent_id t = Some other /\
                           other <> agent_id) ->
  exists w',
    claim_task task_id agent_id w = Some (false, w') /\
    delegated_tasks w' = delegated_tasks w /\
    active_agents w' = active_agents w /\
    file_locks w' = file_locks w.
Proof.
  intros Htaken. rewrite (claim_task_refused _ _ _ Htaken).
  eexists. repeat split.
Qed.

(** The docker agent cannot claim the task assigned to the security
    agent. *)
Lemma claim_of_anothers_task_is_refused_witness :
  exists w',
    claim_task "task-0123456789ab" "docker-agent-01" Scenario.audit_pending
    = Some (false, w') /\
    delegated_tasks w' = delegated_tasks Scenario.audit_pending.
Proof.
  destruct (claim_of_anothers_task_is_refused
              "task-0123456789ab" "docker-agent-01" Scenario.audit_pending)
    as [w' [E [Ht _]]].
  - intros t [<-|[]] _. exists "security-agent-01".
    split; [reflexivity|discriminate].
  - exists w'. split; assumption.
Defined.

Lemma unique_task_row (task_id : string) (rows : list Task) (t : Task) :
  NoDup (map tk_task_id rows) -> In t rows -> tk_task_id t = task_id ->
  filter (task_is task_id) rows = [t].
Proof.
  induction rows as [|r rows IH]; cbn [map filter]; intros Hnd Hin Hid;
    [destruct Hin|].
  inversion Hnd as [|? ? Hr Hrows]; subst.
  destruct Hin as [->|Hin].
  - rewrite (task_is_refl _ _ eq_refl). f_equal.
    apply LockFacts.filter_nil_existsb.
    destruct (existsb (task_is (tk_task_id t)) rows) eqn:Ex; [|reflexivity].
    exfalso. apply Hr. apply existsb_exists in Ex.
    destruct Ex as [r' [Hr' Hid']]. apply in_map_iff. exists r'.
    split; [|exact Hr']. unfold task_is in Hid'. now apply String.eqb_eq.
  - assert (task_is (tk_task_id t) r = false) as ->.
    { unfold task_is. apply String.eqb_neq. intros E. apply Hr.
      rewrite E. now apply in_map. }
    now apply IH.
Qed.

(** X20.  The first claimer wins.  On a table that respects its primary
    key, [claim_task] on an unassigned task returns [True]; the task is then
    claimed, assigned to the caller and stamped with the time of the call.
    A later [claim_task] by another agent returns [False] and changes
    nothing. *)
Theorem first_claimer_wins (task_id first second : string) (t : Task)
    (w : World) :
  NoDup (map tk_task_id (delegated_tasks w)) ->
  In t (delegated_tasks w) -> tk_task_id t = task_id ->
  tk_assigned_agent_id t = None ->
  second <> first ->
  exists w1 st w2,
    claim_task task_id first w = Some (true, w1) /\
    get_task_status task_id w1 = Some (Some st, w1) /\
    ts_status st = "claimed" /\
    ts_assigned_agent_id st = Some first /\
    ts_claimed_at st = Some (clock w (tick w)) /\
    claim_task task_id second w1 = Some (false, w2) /\
    delegated_tasks w2 = delegated_tasks w1.
Proof.
  intros Hnd Hin Hid Hnone Hother.
  pose proof (unique_task_row task_id _ t Hnd Hin Hid) as Hrow.
  rewrite claim_task_eq.
  set (tasks1 := update_where (unassigned task_id) (set_assigned first)
                   (update_where (claimable_by task_id first)
                                 (set_claimed (clock w (tick w)))
                                 (delegated_tasks w))).
  set (w1 := mkWorld (clock w) (S (tick w)) (file_locks w) (active_agents w)
                     tasks1).
  assert (task_is task_id t = true) as Ht by now apply task_is_refl.
  assert (filter (task_is task_id) tasks1
          = [set_assigned first (set_claimed (clock w (tick w)) t)]) as Hrow1.
  { unfold tasks1. rewrite !filter_update_where by reflexivity.
    rewrite Hrow.
    assert (claimable_by task_id first t = true) as Hc
        by (unfold claimable_by; now rewrite Ht, Hnone).
    assert (unassigned task_id (set_claimed (clock w (tick w)) t) = true)
      as Hu.
    { unfold unassigned.
      change (task_is task_id (set_claimed (clock w (tick w)) t))
        with (task_is task_id t).
      cbn [tk_assigned_agent_id set_claimed]. now rewrite Ht, Hnone. }
    unfold update_where. cbn [map]. now rewrite Hc, Hu. }
  assert ((0 <? rowcount (unassigned task_id) (delegated_tasks w)) = true)
    as ->.
  { apply DetectorExtras.rowcount_pos_iff. exists t. split; [exact Hin|].
    unfold unassigned. now rewrite Ht, Hnone. }
  exists w1. eexists _, _. split; [reflexivity|].
  split; [unfold get_task_status; cbn [delegated_tasks w1]; rewrite Hrow1;
          reflexivity|].
  cbn [ts_status ts_assigned_agent_id ts_claimed_at set_assigned set_claimed
       tk_status tk_assigned_agent_id tk_claimed_at].
  do 3 (split; [reflexivity|]).
  rewrite claim_task_refused; [split; reflexivity|].
  intros t' Ht' Hid'.
  assert (In t' (filter (task_is task_id) (delegated_tasks w1))) as Hin'
      by (apply filter_In; split; [exact Ht'|now apply task_is_refl]).
  cbn [delegated_tasks w1] in Hin'. rewrite Hrow1 in Hin'.
  destruct Hin' as [<-|[]]. exists first. split; [reflexivity|congruence].
Qed.

(** A task filed without required capabilities is claimed by the general
    agent; the docker agent comes too late. *)
Lemma first_claimer_wins_witness :
  exists w1 st w2,
    claim_task "task-0123456789ab" "general-agent-01"
               (Scenario.world_after
                  (delegate_task "0123456789ab" "Tune the cluster" "ops"
                                 None 5 None)
                  Scenario.three_agents) = Some (true, w1) /\
    get_task_status "task-0123456789ab" w1 = Some (Some st, w1) /\
    ts_assigned_agent_id st = Some "general-agent-01" /\
    claim_task "task-0123456789ab" "docker-agent-01" w1 = Some (false, w2).
Proof.
  destruct (first_claimer_wins
              "task-0123456789ab" "general-agent-01" "docker-agent-01"
              (mkTask "task-0123456789ab" "ops" "Tune the cluster" "" 5
                      "pending" None None 0 None None None 1)
              (Scenario.world_after
                 (delegate_task "0123456789ab" "Tune the cluster" "ops"
                                None 5 None)
                 Scenario.three_agents))
    as [w1 [st [w2 [E1 [Est [_ [Ha [_ [E2 _]]]]]]]]].
  - repeat constructor. simpl. tauto.
  - now left.
  - reflexivity.
  - reflexivity.
  - discriminate.
  - exists w1, st, w2. auto.
Defined.

(** X21.  [complete_task] on a task that does not exist returns [False]
    and changes neither the tasks nor any workload. *)
Theorem complete_of_unknown_task_changes_nothing (task_id result : string)
    (success : bool) (w : World) :
  (forall t, In t (delegated_tasks w) -> tk_task_id t <> task_id) ->
  exists w',
    complete_task task_id result success w = Some (false, w') /\
    delegated_tasks w' = delegated_tasks w /\
    active_agents w' = active_agents w /\
    file_locks w' = file_locks w.
Proof.
  intros Hunknown. rewrite complete_task_eq.
  assert (forall t, In t (delegated_tasks w) -> task_is task_id t = false)
    as Hno.
  { intros t Ht. unfold task_is. apply String.eqb_neq. now apply Hunknown. }
  rewrite (rowcount_zero _ _ _ Hno).
  rewrite (update_where_untouched _ (task_is task_id)) by exact Hno.
  assert (assigned_agent_of task_id (delegated_tasks w) = None) as ->.
  { unfold assigned_agent_of.
    assert (filter (task_is task_id) (delegated_tasks w) = []) as ->;
      [|reflexivity].
    apply LockFacts.filter_nil_existsb.
    destruct (existsb (task_is task_id) (delegated_tasks w)) eqn:Ex;
      [|reflexivity].
    apply existsb_exists in Ex. destruct Ex as [t [Ht Hid]].
    rewrite (Hno t Ht) in Hid. discriminate. }
  rewrite (update_where_untouched _ (agent_matches None))
    by reflexivity.
  eexists. repeat split.
Qed.

(** Completing a task nobody filed, among the three agents of the
    demonstration. *)
Lemma complete_of_unknown_task_changes_nothing_witness :
  exists w',
    complete_task "task-ffffffffffff" "done" true Scenario.audit_pending
    = Some (false, w') /\
    active_agents w' = active_agents Scenario.audit_pending.
Proof.
  destruct (complete_of_unknown_task_changes_nothing
              "task-ffffffffffff" "done" true Scenario.audit_pending)
    as [w' [E [_ [Ha _]]]].
  - intros t [<-|[]]. discriminate.
  - exists w'. split; assumption.
Defined.

(** X22.  [complete_task] on an existing task returns [True] whatever the
    status of the task, claimed or not, and what [get_task_status] then
    reports is the outcome: status completed or failed according to
    [success], the result, the time of the call, the success flag; the
    other fields are as before. *)
Theorem complete_is_reported_by_status (task_id result : string)
    (success : bool) (before : TaskStatus) (w : World) :
  get_task_status task_id w = Some (Some before, w) ->
  exists w1 after,
    complete_task task_id result success w = Some (true, w1) /\
    get_task_status task_id w1 = Some (Some after, w1) /\
    ts_status after = (if success then "completed" else "failed") /\
    ts_success after = success /\
    ts_result after = Some result /\
    ts_completed_at after = Some (clock w (tick w)) /\
    ts_task_id after = ts_task_id before /\
    ts_task_type after = ts_task_type before /\
    ts_description after = ts_description before /\
    ts_required_capabilities after = ts_required_capabilities before /\
    ts_priority after = ts_priority before /\
    ts_parent_agent_id after = ts_parent_agent_id before /\
    ts_assigned_agent_id after = ts_assigned_agent_id before /\
    ts_created_at after = ts_created_at before /\
    ts_claimed_at after = ts_claimed_at before.
Proof.
  unfold get_task_status at 1. intros Hbefore.
  destruct (filter (task_is task_id) (delegated_tasks w)) as [|t rest] eqn:Ef;
    [discriminate|].
  cbn [fetchone hd_error] in Hbefore. injection Hbefore as <-.
  assert (In t (delegated_tasks w) /\ task_is task_id t = true) as [Hin Ht]
      by (apply filter_In; rewrite Ef; now left).
  rewrite complete_task_eq.
  assert ((0 <? rowcount (task_is task_id) (delegated_tasks w)) = true) as ->
      by (apply DetectorExtras.rowcount_pos_iff; now exists t).
  eexists _, _. split; [reflexivity|].
  unfold get_task_status. cbn [delegated_tasks].
  rewrite filter_update_where by reflexivity. rewrite Ef.
  unfold update_where. cbn [map fetchone hd_error]. rewrite Ht.
  split; [reflexivity|].
  cbn [ts_status ts_success ts_result ts_completed_at ts_task_id ts_task_type
       ts_description ts_required_capabilities ts_priority ts_parent_agent_id
       ts_assigned_agent_id ts_created_at ts_claimed_at set_completed
       tk_status tk_success tk_result tk_completed_at tk_task_id tk_task_type
       tk_description tk_required_capabilities tk_priority tk_parent_agent_id
       tk_assigned_agent_id tk_created_at tk_claimed_at].
  split; [reflexivity|]. split; [now destruct success|].
  repeat split.
Qed.

(** The security task of the demonstration is completed without having
    been claimed. *)
Lemma complete_is_reported_by_status_witness :
  exists w1 after,
    complete_task "task-0123456789ab" "2 findings" true Scenario.audit_pending
    = Some (true, w1) /\
    get_task_status "task-0123456789ab" w1 = Some (Some after, w1) /\
    ts_status after = "completed" /\
    ts_result after = Some "2 findings".
Proof.
  eassert (get_task_status "task-0123456789ab" Scenario.audit_pending
           = Some (Some _, Scenario.audit_pending)) as Hbefore
      by reflexivity.
  destruct (complete_is_reported_by_status
              "task-0123456789ab" "2 findings" true _ Scenario.audit_pending
              Hbefore)
    as [w1 [after [E [Est [Hs [_ [Hr _]]]]]]].
  exists w1, after. auto.
Defined.

(** *** Keys and history along an execution *)

Lemma map_update_where (A K : Type) (key : A -> K) (p : A -> bool)
    (f : A -> A) (rows : list A) :
  (forall r, key (f r) = key r) ->
  map key (update_where p f rows) = map key rows.
Proof.
  intros Hf. unfold update_where. rewrite map_map. apply map_ext.
  intros r. destruct (p r); [apply Hf|reflexivity].
Qed.

Lemma register_agent_eq (agent_id : string) (capabilities : list string)
    (status : string) (w : World) :
  HeartbeatMonitor.register_agent agent_id capabilities status w =
  Some (true,
        mkWorld (clock w) (S (tick w)) (file_locks w)
                (HeartbeatMonitor.insert_or_replace
                   (mkAgent agent_id (Py.join "," capabilities) status
                            (clock w (tick w)) (clock w (tick w)) 0)
                   (active_agents w))
                (delegated_tasks w)).
Proof. reflexivity. Qed.

Lemma perform_keeps_keys (c : Call) (w w' : World) :
  perform c w = Some w' ->
  (NoDup (map ag_agent_id (active_agents w)) ->
   NoDup (map ag_agent_id (active_agents w'))) /\
  (NoDup (map tk_task_id (delegated_tasks w)) ->
   NoDup (map tk_task_id (delegated_tasks w'))).
Proof.
  destruct c as [agent_id capabilities status|agent_id status|agent_id
                |timeout_seconds|uuid_hex description task_type required
                 priority parent|task_id agent_id|task_id result success];
    cbn [perform]; intros H.
  - rewrite register_agent_eq in H. injection H as <-.
    cbn [active_agents delegated_tasks].
    split; [|auto]. intros Hnd.
    unfold HeartbeatMonitor.insert_or_replace. rewrite map_app.
    apply NoDup_app.
    + unfold delete_where. now apply LockFacts.NoDup_map_filter.
    + repeat constructor. simpl. tauto.
    + intros id Hin [<-|[]]. cbn [ag_agent_id] in Hin.
      apply in_map_iff in Hin. destruct Hin as [a [Hid Hin]].
      unfold delete_where in Hin. apply filter_In in Hin.
      destruct Hin as [_ Hin]. unfold HeartbeatMonitor.has_id in Hin.
      rewrite Hid, String.eqb_refl in Hin. discriminate.
  - rewrite DetectorExtras.send_heartbeat_eq in H. injection H as <-.
    cbn [active_agents delegated_tasks]. split; [|auto].
    now rewrite map_update_where by reflexivity.
  - simpl in H. injection H as <-. cbn [active_agents delegated_tasks].
    split; [|auto]. unfold delete_where.
    now apply LockFacts.NoDup_map_filter.
  - simpl in H. injection H as <-. cbn [active_agents delegated_tasks].
    split; [|auto]. unfold delete_where.
    now apply LockFacts.NoDup_map_filter.
  - rewrite delegate_task_eq in H.
    destruct (existsb _ (delegated_tasks w)) eqn:Efresh; [discriminate|].
    injection H as <-. cbn [active_agents delegated_tasks]. split.
    + destruct (option_map fst _); [|auto].
      now rewrite map_update_where by reflexivity.
    + intros Hnd. rewrite map_app. apply NoDup_app; [exact Hnd| |].
      * repeat constructor. simpl. tauto.
      * intros id Hin [<-|[]]. cbn [tk_task_id] in Hin.
        apply in_map_iff in Hin. destruct Hin as [t [Hid Hin]].
        assert (existsb (task_is ("task-" ++ uuid_hex)) (delegated_tasks w)
                = true) as Habs.
        { apply existsb_exists. exists t. split; [exact Hin|].
          now apply task_is_refl. }
        congruence.
  - rewrite claim_task_eq in H. injection H as <-.
    cbn [active_agents delegated_tasks]. split; [auto|].
    now rewrite !map_update_where by reflexivity.
  - rewrite complete_task_eq in H. injection H as <-.
    cbn [active_agents delegated_tasks].
    now rewrite !map_update_where by reflexivity.
Qed.

(** X23.  The primary keys hold along every sequential execution: from a
    store in which no two agents share an [agent_id] and no two tasks a
    [task_id], any sequence of calls that does not raise leads to such a
    store. *)
Theorem keys_stay_unique (calls : list Call) (w w' : World) :
  NoDup (map ag_agent_id (active_agents w)) ->
  NoDup (map tk_task_id (delegated_tasks w)) ->
  run calls w = Some w' ->
  NoDup (map ag_agent_id (active_agents w')) /\
  NoDup (map tk_task_id (delegated_tasks w')).
Proof.
  revert w. induction calls as [|c calls IH]; cbn [run]; intros w Ha Ht H.
  - injection H as <-. now split.
  - destruct (perform c w) as [w1|] eqn:E; [|discriminate].
    destruct (perform_keeps_keys c w w1 E) as [Ha1 Ht1].
    apply (IH w1); auto.
Qed.

(** The keys after the security task has been delegated, completed and
    its agent registered again. *)
Lemma keys_stay_unique_witness :
  exists w',
    run [Scenario.security_audit;
         Complete "task-0123456789ab" "done" true;
         Register "security-agent-01" ["security"] "active"]
        Scenario.three_agents = Some w' /\
    NoDup (map ag_agent_id (active_agents w')) /\
    NoDup (map tk_task_id (delegated_tasks w')).
Proof.
  eexists. split; [reflexivity|].
  apply (keys_stay_unique
           [Scenario.security_audit;
            Complete "task-0123456789ab" "done" true;
            Register "security-agent-01" ["security"] "active"]
           Scenario.three_agents).
  - repeat constructor; simpl; intuition discriminate.
  - constructor.
  - reflexivity.
Defined.

Lemma perform_keeps_tasks (c : Call) (w w' : World) :
  perform c w = Some w' ->
  exists filed,
    map (fun t => (tk_task_id t, tk_task_type t, tk_description t,
                   tk_required_capabilities t, tk_priority t,
                   tk_parent_agent_id t, tk_created_at t))
        (delegated_tasks w')
    = (map (fun t => (tk_task_id t, tk_task_type t, tk_description t,
                      tk_required_capabilities t, tk_priority t,
                      tk_parent_agent_id t, tk_created_at t))
           (delegated_tasks w) ++ filed)%list.
Proof.
  destruct c as [agent_id capabilities status|agent_id status|agent_id
                |timeout_seconds|uuid_hex description task_type required
                 priority parent|task_id agent_id|task_id result success];
    cbn [perform]; intros H.
  - simpl in H. injection H as <-. exists []. now rewrite app_nil_r.
  - simpl in H. injection H as <-. exists []. now rewrite app_nil_r.
  - simpl in H. injection H as <-. exists []. now rewrite app_nil_r.
  - simpl in H. injection H as <-. exists []. now rewrite app_nil_r.
  - rewrite delegate_task_eq in H.
    destruct (existsb _ (delegated_tasks w)); [discriminate|].
    injection H as <-. cbn [delegated_tasks]. rewrite map_app.
    eexists. reflexivity.
  - rewrite claim_task_eq in H. injection H as <-. exists [].
    cbn [delegated_tasks]. rewrite !map_update_where by reflexivity.
    now rewrite app_nil_r.
  - rewrite complete_task_eq in H. injection H as <-. exists [].
    cbn [delegated_tasks]. rewrite map_update_where by reflexivity.
    now rewrite app_nil_r.
Qed.

(** X24.  Tasks are never deleted and what was written when a task was
    filed is never rewritten: along a sequential execution the table of
    tasks, read through its identifier, type, description, required
    capabilities, priority, parent and creation time, only grows at its
    end. *)
Theorem tasks_are_retained (calls : list Call) (w w' : World) :
  run calls w = Some w' ->
  exists filed,
    map (fun t => (tk_task_id t, tk_task_type t, tk_description t,
                   tk_required_capabilities t, tk_priority t,
                   tk_parent_agent_id t, tk_created_at t))
        (delegated_tasks w')
    = (map (fun t => (tk_task_id t, tk_task_type t, tk_description t,
                      tk_required_capabilities t, tk_priority t,
                      tk_parent_agent_id t, tk_created_at t))
           (delegated_tasks w) ++ filed)%list.
Proof.
  revert w. induction calls as [|c calls IH]; cbn [run]; intros w H.
  - injection H as <-. exists []. now rewrite app_nil_r.
  - destruct (perform c w) as [w1|] eqn:E; [|discriminate].
    destruct (perform_keeps_tasks c w w1 E) as [filed1 H1].
    destruct (IH w1 H) as [filed2 H2].
    exists (filed1 ++ filed2)%list. now rewrite H2, H1, app_assoc.
Qed.

(** The security task is still on file after it has been claimed and
    completed and its agent has gone. *)
Lemma tasks_are_retained_witness :
  exists w' filed,
    run [Claim "task-0123456789ab" "security-agent-01";
         Complete "task-0123456789ab" "done" true;
         Unregister "security-agent-01"]
        Scenario.audit_pending = Some w' /\
    map (fun t => (tk_task_id t, tk_task_type t, tk_description t,
                   tk_required_capabilities t, tk_priority t,
                   tk_parent_agent_id t, tk_created_at t))
        (delegated_tasks w')
    = (map (fun t => (tk_task_id t, tk_task_type t, tk_description t,
                      tk_required_capabilities t, tk_priority t,
                      tk_parent_agent_id t, tk_created_at t))
           (delegated_tasks Scenario.audit_pending) ++ filed)%list.
Proof.
  eexists.
  destruct (tasks_are_retained
              [Claim "task-0123456789ab" "security-agent-01";
               Complete "task-0123456789ab" "done" true;
               Unregister "security-agent-01"]
              Scenario.audit_pending _ eq_refl) as [filed H].
  exists filed. split; [reflexivity|exact H].
Defined.

(** X25.  The required capabilities of a task survive the trip through
    the table: when every tag is non-empty and free of commas,
    [get_task_status] on the identifier returned by [delegate_task] gives
    back the list that was asked for, the empty list when none was. *)
Theorem required_capabilities_round_trip
    (uuid_hex description task_type : string)
    (required_capabilities : option (list string)) (priority : Z)
    (parent_agent_id : option string) (w : World) :
  let asked := match required_capabilities with
               | Some required => required
               | None => []
               end in
  Forall HeartbeatMonitor.clean_tag asked ->
  existsb (task_is ("task-" ++ uuid_hex)) (delegated_tasks w) = false ->
  exists d w' st,
    delegate_task uuid_hex description task_type required_capabilities
                  priority parent_agent_id w = Some (d, w') /\
    get_task_status (dg_task_id d) w' = Some (Some st, w') /\
    ts_required_capabilities st = asked.
Proof.
  intros asked Hclean Hfresh.
  rewrite delegate_task_eq, Hfresh. eexists _, _, _. split; [reflexivity|].
  cbn [dg_task_id]. unfold get_task_status. cbn [delegated_tasks].
  rewrite filter_fresh; [|exact Hfresh|apply String.eqb_refl].
  cbn [fetchone hd_error]. split; [reflexivity|].
  cbn [ts_required_capabilities tk_required_capabilities].
  assert (caps_column required_capabilities = Py.join "," asked) as ->.
  { unfold caps_column, asked. destruct required_capabilities as [[|c l]|];
      reflexivity. }
  exact (DetectorFacts.parse_join_clean asked Hclean).
Qed.

(** The two capabilities asked of the security audit are read back. *)
Lemma required_capabilities_round_trip_witness :
  exists d w' st,
    delegate_task "0123456789ab" "Audit" "security-audit"
                  (Some ["security"; "code-analysis"]) 1 None
                  Scenario.three_agents = Some (d, w') /\
    get_task_status (dg_task_id d) w' = Some (Some st, w') /\
    ts_required_capabilities st = ["security"; "code-analysis"].
Proof.
  apply (required_capabilities_round_trip
           "0123456789ab" "Audit" "security-audit"
           (Some ["security"; "code-analysis"]) 1 None Scenario.three_agents).
  - repeat constructor; discriminate.
  - reflexivity.
Defined.
End SchedulerExtras.

Module ListingExtras.
Import TaskListing.

Lemma insert_by_perm (before : Task -> Task -> bool) (a : Task)
    (rows : list Task) :
  Permutation (insert_by before a rows) (a :: rows).
Proof.
  induction rows as [|b rows IH]; cbn [insert_by]; auto.
  destruct (before a b); auto.
  etransitivity; [apply perm_skip, IH | apply perm_swap].
Qed.

Lemma order_by_perm (before : Task -> Task -> bool) (rows : list Task) :
  Permutation (order_by before rows) rows.
Proof.
  induction rows as [|a rows IH]; cbn [order_by fold_right]; auto.
  etransitivity; [apply insert_by_perm | now apply perm_skip].
Qed.

Lemma order_by_sorted (before : Task -> Task -> bool) (rows : list Task) :
  (forall a b, before a b = false -> before b a = true) ->
  (forall a b c, before a b = true -> before b c = true ->
                 before a c = true) ->
  StronglySorted (fun a b => before a b = true) (order_by before rows).
Proof.
  intros Htotal Htrans.
  induction rows as [|a rows IH]; cbn [order_by fold_right]; [constructor|].
  fold (order_by before rows).
  induction IH as [|b sorted Hs IHs Hb]; cbn [insert_by].
  - repeat constructor.
  - destruct (before a b) eqn:Eab.
    + constructor; [now constructor|].
      constructor; [exact Eab|].
      eapply Forall_impl; [|exact Hb]. intros c Hc.
      now apply (Htrans a b c).
    + constructor; [exact IHs|].
      eapply Permutation_Forall; [symmetry; apply insert_by_perm|].
      constructor; [now apply Htotal|exact Hb].
Qed.

(** X26.  [list_tasks] never raises and never writes.  It returns the
    summaries of the tasks with the wanted status, or of all the tasks when
    no status or the empty string is given, each once; ordered by rising
    priority number and, within one priority, by rising creation time, or,
    when [priority_order] is off, by falling creation time. *)
Theorem list_tasks_selects_and_orders (status_filter : option string)
    (priority_order : bool) (w : World) :
  exists listed,
    list_tasks status_filter priority_order w = Some (listed, w) /\
    Permutation listed
      (map summary
           (filter (fun t =>
                      match status_filter with
                      | Some "" | None => true
                      | Some status => String.eqb (tk_status t) status
                      end)
                   (delegated_tasks w))) /\
    StronglySorted
      (fun a b =>
         if priority_order
         then tl_priority a < tl_priority b \/
              (tl_priority a = tl_priority b /\
               tl_created_at a <= tl_created_at b)
         else tl_created_at b <= tl_created_at a)
      listed.
Proof.
  unfold list_tasks.
  set (selected := match status_filter with
                   | Some status =>
                       if Py.truthy status
                       then filter (has_status status) (delegated_tasks w)
                       else delegated_tasks w
                   | None => delegated_tasks w
                   end).
  assert (selected
          = filter (fun t =>
                      match status_filter with
                      | Some "" | None => true
                      | Some status => String.eqb (tk_status t) status
                      end)
                   (delegated_tasks w)) as Hsel.
  { unfold selected. destruct status_filter as [[|c s]|]; cbn [Py.truthy].
    - symmetry. apply forallb_filter_id. now apply forallb_forall.
    - reflexivity.
    - symmetry. apply forallb_filter_id. now apply forallb_forall. }
  rewrite <- Hsel. eexists. split; [reflexivity|]. split.
  - apply Permutation_map. destruct priority_order; apply order_by_perm.
  - assert (forall (before : Task -> Task -> bool) (R : TaskSummary ->
                      TaskSummary -> Prop) rows,
               (forall a b, before a b = true -> R (summary a) (summary b)) ->
               StronglySorted (fun a b => before a b = true) rows ->
               StronglySorted R (map summary rows)) as Hmap.
    { intros before R rows HR Hs.
      induction Hs as [|a rows Hs IH Ha]; cbn [map]; constructor; auto.
      apply Forall_forall. intros s Hin. apply in_map_iff in Hin.
      destruct Hin as [b [<- Hb]]. rewrite Forall_forall in Ha.
      apply HR. now apply Ha. }
    destruct priority_order.
    + apply (Hmap by_priority).
      * intros a b. unfold by_priority. cbn [summary tl_priority
                                               tl_created_at].
        rewrite orb_true_iff, andb_true_iff, Z.ltb_lt, Z.eqb_eq, Z.leb_le.
        tauto.
      * apply order_by_sorted; unfold by_priority; intros;
          repeat match goal with
                 | H : _ = true |- _ =>
                     rewrite orb_true_iff, andb_true_iff, Z.ltb_lt, Z.eqb_eq,
                       Z.leb_le in H
                 | H : _ = false |- _ =>
                     rewrite orb_false_iff, andb_false_iff, Z.ltb_ge,
                       Z.eqb_neq, Z.leb_gt in H
                 end;
          rewrite orb_true_iff, andb_true_iff, Z.ltb_lt, Z.eqb_eq, Z.leb_le;
          lia.
    + apply (Hmap newest_first).
      * intros a b. unfold newest_first. cbn [summary tl_created_at].
        now rewrite Z.leb_le.
      * apply order_by_sorted; unfold newest_first; intros;
          repeat match goal with
                 | H : _ = true |- _ => rewrite Z.leb_le in H
                 | H : _ = false |- _ => rewrite Z.leb_gt in H
                 end;
          rewrite Z.leb_le; lia.
Qed.
End ListingExtras.
Module WorkflowExtras.
Import ChangeHistory BasicCoordination.
Import FileLockCoordinator HeartbeatMonitor.




End WorkflowExtras.

Module EdgeExtras.
Import FileLockCoordinator TaskDelegationSystem.

(** X28.  A timeout of zero or less never acquires: when the clock does
    not run backwards the first test of the loop already fails, and
    [acquire_lock] returns [False] without looking at the lock table, even
    if the resource is free. *)
Theorem nonpositive_timeout_never_acquires (fuel : nat)
    (agent_id file_path operation : string) (timeout_seconds : Z) (w : World) :
  timeout_seconds <= 0 ->
  clock w (tick w) <= clock w (S (tick w)) ->
  acquire_lock (S fuel) agent_id file_path operation timeout_seconds w
  = Some (Some false, set_tick (S (S (tick w))) w).
Proof.
  intros Htimeout Hclock.
  unfold acquire_lock. unfold bind at 1. cbn [time_time acquire_loop].
  unfold bind at 1. cbn [time_time clock tick set_tick].
  assert ((clock w (S (tick w)) - clock w (tick w) <? timeout_seconds)
          = false) as -> by (apply Z.ltb_ge; lia).
  reflexivity.
Qed.

(** Nobody holds f, yet a patience of zero seconds gets nothing. *)
Lemma nonpositive_timeout_never_acquires_witness :
  acquire_lock 1 "agent-a" "f" "write" 0 (fresh_world Scenario.seconds)
  = Some (Some false, set_tick 2 (fresh_world Scenario.seconds)).
Proof.
  apply (nonpositive_timeout_never_acquires 0 "agent-a" "f" "write" 0
           (fresh_world Scenario.seconds)).
  - reflexivity.
  - vm_compute. discriminate.
Defined.

(** X29.  [complete_task] changes no workload when the task has no
    assigned agent or when the assigned agent is no longer registered; the
    task is marked all the same. *)
Theorem complete_without_registered_assignee (task_id result : string)
    (success : bool) (w : World) :
  match assigned_agent_of task_id (delegated_tasks w) with
  | Some assignee => ~ In assignee (map ag_agent_id (active_agents w))
  | None => True
  end ->
  exists b w',
    complete_task task_id result success w = Some (b, w') /\
    active_agents w' = active_agents w /\
    (b = true <-> In task_id (map tk_task_id (delegated_tasks w))).
Proof.
  intros Hgone. rewrite SchedulerFacts.complete_task_eq.
  eexists _, _. split; [reflexivity|]. cbn [active_agents]. split.
  - apply SchedulerExtras.update_where_untouched. intros a Ha.
    destruct (assigned_agent_of task_id (delegated_tasks w)) as [assignee|];
      [|reflexivity].
    cbn [agent_matches]. unfold agent_is. apply String.eqb_neq.
    intros E. apply Hgone. rewrite <- E. now apply in_map.
  - rewrite DetectorExtras.rowcount_pos_iff, in_map_iff.
    split; intros [t Ht]; exists t; unfold task_is in *;
      [split; [apply String.eqb_eq|]; tauto
      |split; [|apply String.eqb_eq]; tauto].
Qed.

(** The unassigned task of the cluster is completed: no workload moves. *)
Lemma complete_without_registered_assignee_witness :
  exists b w',
    complete_task "task-0123456789ab" "done" true
                  (Scenario.world_after
                     (delegate_task "0123456789ab" "Tune the cluster" "ops"
                                    None 5 None)
                     Scenario.three_agents) = Some (b, w') /\
    active_agents w' = active_agents Scenario.three_agents.
Proof.
  destruct (complete_without_registered_assignee
              "task-0123456789ab" "done" true
              (Scenario.world_after
                 (delegate_task "0123456789ab" "Tune the cluster" "ops"
                                None 5 None)
                 Scenario.three_agents) I) as [b [w' [E [Ha _]]]].
  exists b, w'. split; [exact E|exact Ha].
Defined.

(** X30.  [claim_task] never changes a workload.  So an agent that claims
    an unassigned task and then completes it ends with a workload one below
    the one it had: the claim assigned the task to it without counting it. *)
Theorem claimed_task_is_not_counted (task_id agent_id result : string)
    (success : bool) (t : Task) (load : Z) (w : World) :
  NoDup (map tk_task_id (delegated_tasks w)) ->
  In t (delegated_tasks w) -> tk_task_id t = task_id ->
  tk_assigned_agent_id t = None ->
  workload_of agent_id w = Some load ->
  exists w1 w2,
    claim_task task_id agent_id w = Some (true, w1) /\
    active_agents w1 = active_agents w /\
    complete_task task_id result success w1 = Some (true, w2) /\
    workload_of agent_id w2 = Some (load - 1).
Proof.
  intros Hnd Hin Hid Hnone Hload.
  pose proof (SchedulerExtras.unique_task_row task_id _ t Hnd Hin Hid) as Hrow.
  assert (task_is task_id t = true) as Ht
      by now apply SchedulerFacts.task_is_refl.
  rewrite SchedulerFacts.claim_task_eq.
  assert ((0 <? rowcount (unassigned task_id) (delegated_tasks w)) = true)
    as ->.
  { apply DetectorExtras.rowcount_pos_iff. exists t. split; [exact Hin|].
    unfold unassigned. now rewrite Ht, Hnone. }
  eexists _, _. split; [reflexivity|]. split; [reflexivity|].
  rewrite SchedulerFacts.complete_task_eq. cbn [delegated_tasks active_agents].
  set (tasks1 := update_where (unassigned task_id) (set_assigned agent_id)
                   (update_where (claimable_by task_id agent_id)
                                 (set_claimed (clock w (tick w)))
                                 (delegated_tasks w))).
  assert (filter (task_is task_id) tasks1
          = [set_assigned agent_id (set_claimed (clock w (tick w)) t)])
    as Hrow1.
  { unfold tasks1.
    rewrite !SchedulerFacts.filter_update_where by reflexivity.
    rewrite Hrow.
    assert (claimable_by task_id agent_id t = true) as Hc
        by (unfold claimable_by; now rewrite Ht, Hnone).
    assert (unassigned task_id (set_claimed (clock w (tick w)) t) = true)
      as Hu.
    { unfold unassigned.
      change (task_is task_id (set_claimed (clock w (tick w)) t))
        with (task_is task_id t).
      cbn [tk_assigned_agent_id set_claimed]. now rewrite Ht, Hnone. }
    unfold update_where. cbn [map]. now rewrite Hc, Hu. }
  assert (rowcount (task_is task_id) tasks1 = 1) as ->
      by (unfold rowcount; now rewrite Hrow1).
  assert (assigned_agent_of task_id tasks1 = Some agent_id) as Hwho
      by (unfold assigned_agent_of; now rewrite Hrow1).
  rewrite Hwho. split; [reflexivity|].
  rewrite (SchedulerFacts.workload_of_bump (Some agent_id) (-1) agent_id w)
    by reflexivity.
  now rewrite String.eqb_refl, Hload.
Qed.

(** The general agent claims the unassigned task of the cluster and
    completes it: its workload goes from 0 to -1. *)
Lemma claimed_task_is_not_counted_witness :
  exists w1 w2,
    claim_task "task-0123456789ab" "general-agent-01"
               (Scenario.world_after
                  (delegate_task "0123456789ab" "Tune the cluster" "ops"
                                 None 5 None)
                  Scenario.three_agents) = Some (true, w1) /\
    complete_task "task-0123456789ab" "done" true w1 = Some (true, w2) /\
    workload_of "general-agent-01" w2 = Some (-1).
Proof.
  destruct (claimed_task_is_not_counted
              "task-0123456789ab" "general-agent-01" "done" true
              (mkTask "task-0123456789ab" "ops" "Tune the cluster" "" 5
                      "pending" None None 0 None None None 1)
              0
              (Scenario.world_after
                 (delegate_task "0123456789ab" "Tune the cluster" "ops"
                                None 5 None)
                 Scenario.three_agents))
    as [w1 [w2 [E1 [_ [E2 Hw]]]]].
  - repeat constructor. simpl. tauto.
  - now left.
  - reflexivity.
  - reflexivity.
  - reflexivity.
  - exists w1, w2. auto.
Defined.
End EdgeExtras.
